(** * matlab-mcp-core-server: instance lock and pinned-certificate client

    A shallow embedding of
      - internal/utils/instancelock/instancelock.go  (the lock file protocol),
      - the HTTP client factory for self-signed TLS servers
        (package httpclientfactory),
      - the call made by cmd main,
    together with the properties the design document states about them.

    Go's [int] is taken to be 64 bits wide and is represented by [Z];
    Go strings are byte strings and are represented by [string];
    operating-system and library calls are the nodes of a program tree whose
    answers are supplied by a handler, so that every property is proved for
    every possible behaviour of the environment. *)

From Stdlib Require Import ZArith List Bool Ascii String Lia.
From Stdlib Require Import Strings.Byte.
Import ListNotations.

Local Open Scope Z_scope.

(** ** Go library functions on strings: strings.TrimSpace, strconv.Atoi,
       strconv.Itoa *)

Module GoStrings.

Definition bytes_of (codes : list N) : list ascii := map ascii_of_N codes.

(** UTF-8 encodings of the code points for which unicode.IsSpace holds:
    U+0009..U+000D, U+0020, U+0085, U+00A0, U+1680, U+2000..U+200A,
    U+2028, U+2029, U+202F, U+205F, U+3000. *)
Definition spaceRunes : list (list ascii) :=
  map bytes_of
    [ [9]; [10]; [11]; [12]; [13]; [32];
      [194; 133]; [194; 160];
      [225; 154; 128];
      [226; 128; 128]; [226; 128; 129]; [226; 128; 130]; [226; 128; 131];
      [226; 128; 132]; [226; 128; 133]; [226; 128; 134]; [226; 128; 135];
      [226; 128; 136]; [226; 128; 137]; [226; 128; 138];
      [226; 128; 168]; [226; 128; 169]; [226; 128; 175];
      [226; 129; 159];
      [227; 128; 128] ]%N.

(** [stripPrefix pat s] is the rest of [s] after [pat] when [s] starts
    with [pat]. *)
Fixpoint stripPrefix (pat s : list ascii) : option (list ascii) :=
  match pat, s with
  | [], _ => Some s
  | _ :: _, [] => None
  | p :: pat', c :: s' => if Ascii.eqb p c then stripPrefix pat' s' else None
  end.

Fixpoint stripAny (pats : list (list ascii)) (s : list ascii)
  : option (list ascii) :=
  match pats with
  | [] => None
  | pat :: pats' =>
      match stripPrefix pat s with
      | Some rest => Some rest
      | None => stripAny pats' s
      end
  end.

(** Drop leading runes while they are among [pats]; each round removes at
    least one byte, so [length s] rounds are enough. *)
Fixpoint trimFuel (fuel : nat) (pats : list (list ascii)) (s : list ascii)
  : list ascii :=
  match fuel with
  | O => s
  | S fuel' =>
      match stripAny pats s with
      | Some rest => trimFuel fuel' pats rest
      | None => s
      end
  end.

Definition TrimLeftSpace (s : list ascii) : list ascii :=
  trimFuel (List.length s) spaceRunes s.

Definition TrimRightSpace (s : list ascii) : list ascii :=
  rev (trimFuel (List.length s) (map (@rev ascii) spaceRunes) (rev s)).

(** strings.TrimSpace: all leading and trailing white space removed. *)
Definition TrimSpace (s : string) : string :=
  string_of_list_ascii (TrimRightSpace (TrimLeftSpace (list_ascii_of_string s))).

(** Range of Go's [int] on a 64-bit platform. *)
Definition minInt : Z := - 2 ^ 63.
Definition maxInt : Z := 2 ^ 63 - 1.
Definition isInt (n : Z) : Prop := minInt <= n <= maxInt.
Definition isIntb (n : Z) : bool := (minInt <=? n) && (n <=? maxInt).

Definition isDigit (c : ascii) : bool :=
  let n := N_of_ascii c in (48 <=? n)%N && (n <=? 57)%N.

Definition digitVal (c : ascii) : Z := Z.of_N (N_of_ascii c) - 48.

Definition digitChar (d : Z) : ascii := ascii_of_N (Z.to_N (48 + d)).

(** The digit loop of strconv.ParseUint in base 10: [n = n*10 + d]. *)
Fixpoint parseDigits (s : list ascii) (n : Z) : option Z :=
  match s with
  | [] => Some n
  | c :: s' => if isDigit c then parseDigits s' (n * 10 + digitVal c) else None
  end.

(** strconv.Atoi: an optional sign, then at least one decimal digit and
    nothing else; a value outside the range of [int] is an error.  [None]
    stands for a non-nil error. *)
Definition Atoi (s : string) : option Z :=
  let parseUnsigned (neg : bool) (ds : list ascii) :=
    match ds with
    | [] => None
    | _ :: _ =>
        match parseDigits ds 0 with
        | None => None
        | Some n =>
            let v := if neg then - n else n in
            if isIntb v then Some v else None
        end
    end in
  match list_ascii_of_string s with
  | [] => None
  | c :: rest =>
      if Ascii.eqb c "-" then parseUnsigned true rest
      else if Ascii.eqb c "+" then parseUnsigned false rest
      else parseUnsigned false (c :: rest)
  end.

(** The digit loop of strconv.FormatInt in base 10, least significant digit
    first, prepending to [acc]. *)
Fixpoint formatDigits (fuel : nat) (n : Z) (acc : list ascii) : list ascii :=
  match fuel with
  | O => acc
  | S fuel' =>
      if n <? 10 then digitChar n :: acc
      else formatDigits fuel' (n / 10) (digitChar (n mod 10) :: acc)
  end.

(** Every [n] has at most [log2 n + 1] decimal digits. *)
Definition formatUnsigned (n : Z) : list ascii :=
  formatDigits (S (Z.to_nat (Z.log2 n))) n [].

(** strconv.Itoa. *)
Definition Itoa (i : Z) : string :=
  string_of_list_ascii
    (if i <? 0 then "-"%char :: formatUnsigned (- i) else formatUnsigned i).

(** A byte of a decimal text: a digit or the minus sign. *)
Definition isDecimalByte (c : ascii) : bool := isDigit c || Ascii.eqb c "-".

End GoStrings.

Import GoStrings.


(** ** Errors *)

(** Go [error] values.  [External] is an error produced outside this
    repository (by the operating system or by crypto/x509); [Errorf] is the
    value built by fmt.Errorf from a format and its integer and time
    arguments; [Wrapf] is fmt.Errorf with the verb %w, which wraps [err].
    A nil error is [None] of [option error]. *)
Inductive error : Type :=
| External (code : N)
| Errorf (format : string) (args : list Z)
| Wrapf (format : string) (args : list Z) (err : error).

Definition ENOENT : error := External 2.

(** ** Programs over an interface of external calls *)

Section Programs.

Context {E : Type -> Type}.

(** A program either returns, or performs a call [e] of the interface
    and continues with the answer. *)
Inductive prog (A : Type) : Type :=
| Ret (a : A)
| Vis {X : Type} (e : E X) (k : X -> prog A).

Arguments Ret {A} a.
Arguments Vis {A X} e k.

Fixpoint bind {A B : Type} (m : prog A) (f : A -> prog B) : prog B :=
  match m with
  | Ret a => f a
  | Vis e k => Vis e (fun x => bind (k x) f)
  end.

Definition call {X : Type} (e : E X) : prog X := Vis e (fun x => Ret x).

(** A handler answers each call from a state of the environment; [log]
    records a call and its answer as an event of type [T]. *)
Context {S T : Type}.
Variable handle : forall X : Type, E X -> S -> X * S.
Variable log : forall X : Type, E X -> X -> T.

(** Run to completion: the result, the final state and the events in the
    order they happened. *)
Fixpoint run {A : Type} (p : prog A) (s : S) : A * S * list T :=
  match p with
  | Ret a => (a, s, [])
  | Vis e k =>
      let (x, s1) := handle _ e s in
      let '(a, s2, tr) := run (k x) s1 in
      (a, s2, log _ e x :: tr)
  end.

(** One call of one program. *)
Definition step {A : Type} (p : prog A) (s : S) : prog A * S * list T :=
  match p with
  | Ret a => (Ret a, s, [])
  | Vis e k => let (x, s1) := handle _ e s in (k x, s1, [log _ e x])
  end.

(** [n] calls of one program, one after the other. *)
Fixpoint steps {A : Type} (n : nat) (p : prog A) (s : S)
  : prog A * S * list T :=
  match n with
  | O => (p, s, [])
  | Datatypes.S n' =>
      let '(p1, s1, tr1) := step p s in
      let '(p2, s2, tr2) := steps n' p1 s1 in
      (p2, s2, tr1 ++ tr2)
  end.

Fixpoint setNth {A : Type} (i : nat) (a : A) (l : list A) : list A :=
  match l, i with
  | [], _ => []
  | _ :: l', O => a :: l'
  | b :: l', Datatypes.S i' => b :: setNth i' a l'
  end.

(** Several programs sharing one environment: [sched] names, call by
    call, the program that moves next.  The events carry the index of the
    program that made the call. *)
Fixpoint runSched {A : Type} (sched : list nat) (ps : list (prog A)) (s : S)
  : list (prog A) * S * list (nat * T) :=
  match sched with
  | [] => (ps, s, [])
  | i :: sched' =>
      match nth_error ps i with
      | None => runSched sched' ps s
      | Some p =>
          let '(p1, s1, evs) := step p s in
          let '(ps2, s2, tr) := runSched sched' (setNth i p1 ps) s1 in
          (ps2, s2, map (pair i) evs ++ tr)
      end
  end.

End Programs.

Arguments prog E A : clear implicits.
Arguments Ret {E A} a.
Arguments Vis {E A X} e k.

Declare Scope prog_scope.
Delimit Scope prog_scope with prog.
Notation "x <- m ;; k" := (bind m (fun x => k))
  (at level 61, m at next level, right associativity) : prog_scope.
Notation "m ;;; k" := (bind m (fun _ => k))
  (at level 61, right associativity) : prog_scope.

(** ** internal/utils/instancelock *)

Module instancelock.

Local Open Scope prog_scope.

Definition lockFileName : string := "matlab-mcp-core-server.lock".

(** time.Duration counts nanoseconds. *)
Definition Millisecond : Z := 1000000.

(** The calls the lock makes outside the package: package os, time.Sleep,
    and the two platform-specific functions
    checkProcessRunningPlatformSpecific and killProcessPlatformSpecific.
    An [option error] answer is Go's [error], [None] being nil. *)
Inductive osE : Type -> Type :=
| Stat (name : string) : osE (option error)
| ReadFile (name : string) : osE (string + error)
| Remove (name : string) : osE (option error)
| WriteFile (name : string) (data : string) (perm : N) : osE (option error)
| IsProcessRunning (pid : Z) : osE bool
| KillProcess (pid : Z) : osE (option error)
| Sleep (d : Z) : osE unit.

(** A call together with its answer. *)
Inductive osEvent : Type :=
| EvStat (name : string) (err : option error)
| EvReadFile (name : string) (r : string + error)
| EvRemove (name : string) (err : option error)
| EvWriteFile (name : string) (data : string) (perm : N) (err : option error)
| EvIsProcessRunning (pid : Z) (running : bool)
| EvKillProcess (pid : Z) (err : option error)
| EvSleep (d : Z).

Definition osLog (X : Type) (e : osE X) : X -> osEvent :=
  match e in osE X return X -> osEvent with
  | Stat name => EvStat name
  | ReadFile name => EvReadFile name
  | Remove name => EvRemove name
  | WriteFile name data perm => EvWriteFile name data perm
  | IsProcessRunning pid => EvIsProcessRunning pid
  | KillProcess pid => EvKillProcess pid
  | Sleep d => fun _ => EvSleep d
  end.

(** InstanceLock manages a lock file to prevent multiple instances from
    running. *)
Record InstanceLock : Type := {
  lockFilePath : string;
  pid : Z
}.

(** createLock creates the lock file with current PID. *)
Definition createLock (l : InstanceLock) : prog osE (bool * option error) :=
  let pidStr := Itoa (pid l) in
  err <- call (WriteFile (lockFilePath l) pidStr 420) ;;
  match err with
  | Some err => Ret (false, Some (Wrapf "failed to create lock file: %w" [] err))
  | None => Ret (true, None)
  end.

(** isProcessRunning checks if a process with the given PID is still
    running. *)
Definition isProcessRunning (l : InstanceLock) (pid : Z) : prog osE bool :=
  call (IsProcessRunning pid).

(** killProcess terminates the process with the given PID. *)
Definition killProcess (l : InstanceLock) (pid : Z) : prog osE (option error) :=
  call (KillProcess pid).

(** The loop [for i := 0; i < 10; i++] of TryLockWithKill, with [n = 10 - i]
    rounds left: leave as soon as the process is no longer running,
    otherwise sleep 100ms and go round again. *)
Fixpoint waitForExit (l : InstanceLock) (existingPID : Z) (n : nat)
  : prog osE unit :=
  match n with
  | O => Ret tt
  | S n' =>
      running <- isProcessRunning l existingPID ;;
      if negb running then Ret tt
      else call (Sleep (100 * Millisecond)) ;;; waitForExit l existingPID n'
  end.

(** TryLockWithKill attempts to acquire the lock, optionally killing the
    existing instance if one is running.  The result is Go's pair
    [(bool, error)]. *)
Definition TryLockWithKill (l : InstanceLock) (killExisting : bool)
  : prog osE (bool * option error) :=
  statErr <- call (Stat (lockFilePath l)) ;;
  match statErr with
  | None =>
      r <- call (ReadFile (lockFilePath l)) ;;
      match r with
      | inr _ =>
          call (Remove (lockFilePath l)) ;;;
          createLock l
      | inl pidBytes =>
          match Atoi (TrimSpace pidBytes) with
          | None =>
              call (Remove (lockFilePath l)) ;;;
              createLock l
          | Some existingPID =>
              if existingPID =? pid l then Ret (true, None)
              else
                running <- isProcessRunning l existingPID ;;
                if running then
                  if killExisting then
                    err <- killProcess l existingPID ;;
                    match err with
                    | Some err =>
                        Ret (false,
                             Some (Wrapf "failed to kill existing instance (PID %d): %w"
                                         [existingPID] err))
                    | None =>
                        waitForExit l existingPID 10 ;;;
                        call (Remove (lockFilePath l)) ;;;
                        createLock l
                    end
                  else Ret (false, None)
                else
                  call (Remove (lockFilePath l)) ;;;
                  createLock l
          end
      end
  | Some _ => createLock l
  end.

(** TryLock attempts to acquire the lock. *)
Definition TryLock (l : InstanceLock) : prog osE (bool * option error) :=
  TryLockWithKill l false.

(** Unlock removes the lock file. *)
Definition Unlock (l : InstanceLock) : prog osE (option error) :=
  call (Remove (lockFilePath l)).

(** The results without error: the lock was acquired, or another instance
    is running. *)
Definition Acquired : bool * option error := (true, None).
Definition Rejected : bool * option error := (false, None).

(** *** The start of cmd main

    main acquires the lock with [TryLockWithKill(true)], exits with status 1
    on an error, with status 0 when the lock was not acquired, and goes on
    otherwise. *)
Inductive startup : Type :=
| Exit (code : Z)
| Proceed.

Definition mainAcquire (instanceLock : InstanceLock) : prog osE startup :=
  r <- TryLockWithKill instanceLock true ;;
  let '(acquired, err) := r in
  match err with
  | Some _ => Ret (Exit 1)
  | None => if negb acquired then Ret (Exit 0) else Ret Proceed
  end.

(** *** A model of the operating system

    The file system maps a name to the content of the file of that name.
    What the program cannot control, namely which calls fail, which
    processes are running and when they stop, is decided by an [Oracle]
    indexed by the number of calls made so far; the properties below hold
    for every oracle.  A fault of Stat, ReadFile or Remove is an error for a
    file that exists; a failing write may already have truncated the file,
    which is the boolean of [writeFault]. *)
Record World : Type := {
  files : string -> option string;
  ticks : nat
}.

Record Oracle : Type := {
  statFault : nat -> option error;
  readFault : nat -> option error;
  removeFault : nat -> option error;
  writeFault : nat -> option (error * bool);
  running : nat -> Z -> bool;
  killFault : nat -> Z -> option error
}.

Definition setFile (name : string) (content : option string) (w : World)
  : World :=
  {| files := fun n => if String.eqb n name then content else files w n;
     ticks := S (ticks w) |}.

Definition tick (w : World) : World :=
  {| files := files w; ticks := S (ticks w) |}.

Definition os (o : Oracle) (X : Type) (e : osE X) (w : World) : X * World :=
  let t := ticks w in
  match e in osE X return X * World with
  | Stat name =>
      match files w name with
      | None => (Some ENOENT, tick w)
      | Some _ => (statFault o t, tick w)
      end
  | ReadFile name =>
      match files w name, readFault o t with
      | None, _ => (inr ENOENT, tick w)
      | Some _, Some err => (inr err, tick w)
      | Some content, None => (inl content, tick w)
      end
  | Remove name =>
      match files w name, removeFault o t with
      | None, _ => (Some ENOENT, tick w)
      | Some _, Some err => (Some err, tick w)
      | Some _, None => (None, setFile name None w)
      end
  | WriteFile name data _ =>
      match writeFault o t with
      | Some (err, truncated) =>
          (Some err, if truncated then setFile name (Some ""%string) w else tick w)
      | None => (None, setFile name (Some data) w)
      end
  | IsProcessRunning p => (running o t p, tick w)
  | KillProcess p => (killFault o t p, tick w)
  | Sleep _ => (tt, tick w)
  end.

(** Running a program of the lock against the model. *)
Definition exec {A : Type} (o : Oracle) (p : prog osE A) (w : World)
  : A * World * list osEvent :=
  run (os o) osLog p w.

(** An environment without faults in which every process keeps running. *)
Definition calm : Oracle :=
  {| statFault := fun _ => None;
     readFault := fun _ => None;
     removeFault := fun _ => None;
     writeFault := fun _ => None;
     running := fun _ _ => true;
     killFault := fun _ _ => None |}.

Definition emptyWorld : World := {| files := fun _ => None; ticks := 0 |}.

Definition holding (name content : string) : World :=
  setFile name (Some content) emptyWorld.

(** *** Shapes of runs

    The events of [createLock], of the polling loop, and of every run of
    [TryLockWithKill], used to state what a call does. *)
Definition writeEv (l : InstanceLock) (err : option error) : osEvent :=
  EvWriteFile (lockFilePath l) (Itoa (pid l)) 420 err.

Definition createResult (err : option error) : bool * option error :=
  match err with
  | Some err => (false, Some (Wrapf "failed to create lock file: %w" [] err))
  | None => (true, None)
  end.

(** [alive] checks that found the process running, each followed by a
    sleep of 100ms, then, when [seenDead], one check that found it gone. *)
Definition pollTrace (existingPID : Z) (alive : nat) (seenDead : bool)
  : list osEvent :=
  List.concat (repeat [EvIsProcessRunning existingPID true;
                       EvSleep (100 * Millisecond)] alive)
  ++ (if seenDead then [EvIsProcessRunning existingPID false] else []).

(** The number of liveness checks of [p] among the events. *)
Fixpoint livenessChecks (p : Z) (tr : list osEvent) : nat :=
  match tr with
  | [] => O
  | EvIsProcessRunning q _ :: tr' =>
      if (q =? p)%Z then S (livenessChecks p tr') else livenessChecks p tr'
  | _ :: tr' => livenessChecks p tr'
  end.

(** Events after which a file may differ: a removal that succeeded, and a
    write, failed or not. *)
Definition modifies (ev : osEvent) : bool :=
  match ev with
  | EvRemove _ None => true
  | EvWriteFile _ _ _ _ => true
  | _ => false
  end.

Definition isWrite (ev : osEvent) : bool :=
  match ev with
  | EvWriteFile _ _ _ _ => true
  | _ => false
  end.

(** Every write among the events succeeded. *)
Definition writesSucceed (tr : list osEvent) : Prop :=
  forall name data perm err,
    In (EvWriteFile name data perm err) tr -> err = None.

Inductive lockRun (l : InstanceLock) (killExisting : bool)
  : list osEvent -> bool * option error -> Prop :=
| RunStatFailed (e : error) (x : option error) :
    lockRun l killExisting
      [EvStat (lockFilePath l) (Some e); writeEv l x]
      (createResult x)
| RunUnreadable (e : error) (y x : option error) :
    lockRun l killExisting
      [EvStat (lockFilePath l) None; EvReadFile (lockFilePath l) (inr e);
       EvRemove (lockFilePath l) y; writeEv l x]
      (createResult x)
| RunCorrupt (content : string) (y x : option error) :
    Atoi (TrimSpace content) = None ->
    lockRun l killExisting
      [EvStat (lockFilePath l) None; EvReadFile (lockFilePath l) (inl content);
       EvRemove (lockFilePath l) y; writeEv l x]
      (createResult x)
| RunOwn (content : string) :
    Atoi (TrimSpace content) = Some (pid l) ->
    lockRun l killExisting
      [EvStat (lockFilePath l) None; EvReadFile (lockFilePath l) (inl content)]
      (true, None)
| RunStale (content : string) (existingPID : Z) (y x : option error) :
    Atoi (TrimSpace content) = Some existingPID ->
    existingPID <> pid l ->
    lockRun l killExisting
      [EvStat (lockFilePath l) None; EvReadFile (lockFilePath l) (inl content);
       EvIsProcessRunning existingPID false;
       EvRemove (lockFilePath l) y; writeEv l x]
      (createResult x)
| RunRejected (content : string) (existingPID : Z) :
    Atoi (TrimSpace content) = Some existingPID ->
    existingPID <> pid l ->
    killExisting = false ->
    lockRun l killExisting
      [EvStat (lockFilePath l) None; EvReadFile (lockFilePath l) (inl content);
       EvIsProcessRunning existingPID true]
      (false, None)
| RunKillFailed (content : string) (existingPID : Z) (e : error) :
    Atoi (TrimSpace content) = Some existingPID ->
    existingPID <> pid l ->
    killExisting = true ->
    lockRun l killExisting
      [EvStat (lockFilePath l) None; EvReadFile (lockFilePath l) (inl content);
       EvIsProcessRunning existingPID true;
       EvKillProcess existingPID (Some e)]
      (false,
       Some (Wrapf "failed to kill existing instance (PID %d): %w"
                   [existingPID] e))
| RunKilled (content : string) (existingPID : Z) (alive : nat)
            (seenDead : bool) (y x : option error) :
    Atoi (TrimSpace content) = Some existingPID ->
    existingPID <> pid l ->
    killExisting = true ->
    (if seenDead then alive < 10 else alive = 10)%nat ->
    lockRun l killExisting
      ([EvStat (lockFilePath l) None; EvReadFile (lockFilePath l) (inl content);
        EvIsProcessRunning existingPID true;
        EvKillProcess existingPID None]
       ++ pollTrace existingPID alive seenDead
       ++ [EvRemove (lockFilePath l) y; writeEv l x])
      (createResult x).

(** An environment in which the call number 3 (counting from 0) fails when
    it reads and the call number 5 fails when it writes, with the errors
    EIO and ENOSPC. *)
Definition ioTrouble : Oracle :=
  {| statFault := fun _ => None;
     readFault := fun t => if Nat.eqb t 3 then Some (External 5) else None;
     removeFault := fun _ => None;
     writeFault :=
       fun t => if Nat.eqb t 5 then Some (External 28, false) else None;
     running := fun _ _ => true;
     killFault := fun _ _ => None |}.

(** Two instances of the server on one host: the same lock file, two
    PIDs. *)
Definition tmpLock : string := "/tmp/matlab-mcp-core-server.lock".
Definition instanceA : InstanceLock := {| lockFilePath := tmpLock; pid := 101 |}.
Definition instanceB : InstanceLock := {| lockFilePath := tmpLock; pid := 102 |}.

(** No event modifies a file. *)
Definition quiet (tr : list osEvent) : bool :=
  forallb (fun ev => negb (modifies ev)) tr.

(** An environment without faults in which no process is running, and one
    in which every process keeps running and may not be killed (EPERM). *)
Definition noneRunning : Oracle :=
  {| statFault := fun _ => None;
     readFault := fun _ => None;
     removeFault := fun _ => None;
     writeFault := fun _ => None;
     running := fun _ _ => false;
     killFault := fun _ _ => None |}.

Definition killDenied : Oracle :=
  {| statFault := fun _ => None;
     readFault := fun _ => None;
     removeFault := fun _ => None;
     writeFault := fun _ => None;
     running := fun _ _ => true;
     killFault := fun _ _ => Some (External 1) |}.

(** An environment without faults in which every process is running until
    call number [n] and gone from then on, and one in which the call number
    2 fails when it stats (EACCES). *)
Definition exitsAtCall (n : nat) : Oracle :=
  {| statFault := fun _ => None;
     readFault := fun _ => None;
     removeFault := fun _ => None;
     writeFault := fun _ => None;
     running := fun t _ => Nat.ltb t n;
     killFault := fun _ _ => None |}.

Definition statTrouble : Oracle :=
  {| statFault := fun t => if Nat.eqb t 2 then Some (External 13) else None;
     readFault := fun _ => None;
     removeFault := fun _ => None;
     writeFault := fun _ => None;
     running := fun _ _ => true;
     killFault := fun _ _ => None |}.

End instancelock.

(** ** httpclientfactory *)

Module httpclientfactory.

Local Open Scope prog_scope.

(** time.Time as an instant in nanoseconds; time.Duration counts
    nanoseconds. *)
Definition Time : Type := Z.
Definition Hour : Z := 3600 * 1000000000.
Definition Add (t : Time) (d : Z) : Time := t + d.
(** [After t u] is Go's [t.After(u)], [Before t u] is [t.Before(u)]. *)
Definition After (t u : Time) : bool := u <? t.
Definition Before (t u : Time) : bool := t <? u.

(** The fields of x509.Certificate the factory reads. *)
Record Certificate : Type := {
  Raw : list byte;
  NotBefore : Time;
  NotAfter : Time
}.

Definition CertPool : Type := list Certificate.

(** x509.VerifyOptions.  [CurrentTime] is [None] for the zero value, for
    which Verify uses the current time. *)
Record VerifyOptions : Type := {
  Roots : CertPool;
  CurrentTime : option Time
}.

Definition withCurrentTime (opts : VerifyOptions) (t : Time) : VerifyOptions :=
  {| Roots := Roots opts; CurrentTime := Some t |}.

(** The time Verify compares validity windows with, when called at [now]. *)
Definition referenceTime (now : Time) (opts : VerifyOptions) : Time :=
  match CurrentTime opts with
  | None => now
  | Some t => t
  end.

Record Jar : Type := { entries : list (string * string) }.

(** The calls whose answer depends on the environment: time.Now,
    Certificate.Verify and cookiejar.New. *)
Inductive tlsE : Type -> Type :=
| Now : tlsE Time
| Verify (cert : Certificate) (opts : VerifyOptions) : tlsE (option error)
| CookiejarNew : tlsE (Jar + error).

Inductive tlsEvent : Type :=
| EvNow (t : Time)
| EvVerify (cert : Certificate) (opts : VerifyOptions) (err : option error)
| EvCookiejarNew (r : Jar + error).

Definition tlsLog (X : Type) (e : tlsE X) : X -> tlsEvent :=
  match e in tlsE X return X -> tlsEvent with
  | Now => EvNow
  | Verify cert opts => EvVerify cert opts
  | CookiejarNew => EvCookiejarNew
  end.

(** tls.Config, http.Transport and http.Client, with the fields the factory
    sets. *)
Record Config : Type := {
  MinVersion : N;
  RootCAs : CertPool;
  InsecureSkipVerify : bool;
  VerifyPeerCertificate :
    list (list byte) -> list (list Certificate) -> prog tlsE (option error)
}.

Record Transport : Type := { TLSClientConfig : Config }.

Record Client : Type := {
  ClientTransport : Transport;
  ClientJar : Jar
}.

Definition VersionTLS12 : N := 771.

(** Clock skew tolerance: allow certificates that are valid within 24
    hours. *)
Definition clockSkewTolerance : Z := 24 * Hour.

Section Factory.

(** x509.ParseCertificate, and the certificates that
    CertPool.AppendCertsFromPEM decodes from a PEM text: both are pure
    functions of crypto/x509. *)
Variable ParseCertificate : list byte -> Certificate + error.
Variable pemCertificates : list byte -> list Certificate.

Definition NewCertPool : CertPool := [].

(** AppendCertsFromPEM reports whether any certificate was appended. *)
Definition AppendCertsFromPEM (pool : CertPool) (pemCerts : list byte)
  : CertPool * bool :=
  match pemCertificates pemCerts with
  | [] => (pool, false)
  | cs => (pool ++ cs, true)
  end.

(** Parse all certificates in the chain; the first failure ends the
    callback. *)
Fixpoint parseChain (rawCerts : list (list byte)) (certs : list Certificate)
  : list Certificate + error :=
  match rawCerts with
  | [] => inl certs
  | rawCert :: rest =>
      match ParseCertificate rawCert with
      | inr err => inr (Wrapf "failed to parse certificate: %w" [] err)
      | inl cert => parseChain rest (certs ++ [cert])
      end
  end.

(** Check certificate validity with clock skew tolerance. *)
Fixpoint checkSkew (certs : list Certificate) (earliestValid latestValid : Time)
  : option error :=
  match certs with
  | [] => None
  | cert :: rest =>
      if After (NotBefore cert) latestValid then
        Some (Errorf
          "certificate not yet valid: NotBefore %v is after %v (clock skew tolerance: %v)"
          [NotBefore cert; latestValid; clockSkewTolerance])
      else if Before (NotAfter cert) earliestValid then
        Some (Errorf
          "certificate expired: NotAfter %v is before %v (clock skew tolerance: %v)"
          [NotAfter cert; earliestValid; clockSkewTolerance])
      else checkSkew rest earliestValid latestValid
  end.

(** The loop over the adjusted times: the first success ends the callback
    with nil; [lastErr] is overwritten by each failure. *)
Fixpoint verifyAt (cert : Certificate) (opts : VerifyOptions)
         (checkTimes : list Time) (lastErr : error)
  : prog tlsE (option error) :=
  match checkTimes with
  | [] => Ret (Some (Wrapf "certificate verification failed: %w" [] lastErr))
  | checkTime :: rest =>
      let opts := withCurrentTime opts checkTime in
      err <- call (Verify cert opts) ;;
      match err with
      | None => Ret None
      | Some err => verifyAt cert opts rest err
      end
  end.

(** The function literal assigned to VerifyPeerCertificate. *)
Definition verifyPeerCertificate (caCertPool : CertPool)
           (rawCerts : list (list byte))
           (verifiedChains : list (list Certificate))
  : prog tlsE (option error) :=
  match parseChain rawCerts [] with
  | inr err => Ret (Some err)
  | inl certs =>
      match certs with
      | [] => Ret (Some (Errorf "no certificates provided" []))
      | cert0 :: _ =>
          now <- call Now ;;
          let earliestValid := Add now (- clockSkewTolerance) in
          let latestValid := Add now clockSkewTolerance in
          match checkSkew certs earliestValid latestValid with
          | Some err => Ret (Some err)
          | None =>
              let opts := {| Roots := caCertPool; CurrentTime := None |} in
              err <- call (Verify cert0 opts) ;;
              match err with
              | None => Ret None
              | Some err =>
                  verifyAt cert0 opts
                           [Add now clockSkewTolerance;
                            Add now (- clockSkewTolerance)]
                           err
              end
          end
      end
  end.

(** NewClientForSelfSignedTLSServer; the result is Go's pair
    [(HttpClient, error)], a nil client being [None]. *)
Definition NewClientForSelfSignedTLSServer (certificatePEM : list byte)
  : prog tlsE (option Client * option error) :=
  let (caCertPool, ok) := AppendCertsFromPEM NewCertPool certificatePEM in
  if negb ok then
    Ret (None, Some (Errorf "failed to append certificate to pool" []))
  else
    let transport :=
      {| TLSClientConfig :=
           {| MinVersion := VersionTLS12;
              RootCAs := caCertPool;
              InsecureSkipVerify := true;
              VerifyPeerCertificate := verifyPeerCertificate caCertPool |} |} in
    r <- call CookiejarNew ;;
    match r with
    | inr err => Ret (None, Some (Wrapf "failed to create cookie jar: %w" [] err))
    | inl jar =>
        Ret (Some {| ClientTransport := transport; ClientJar := jar |}, None)
    end.

End Factory.

(** Whether an event is a chain verification. *)
Definition isVerify (ev : tlsEvent) : bool :=
  match ev with
  | EvVerify _ _ _ => true
  | _ => false
  end.

(** *** A small environment to run the factory in

    The clock shows [now], Verify answers [verdict], cookiejar.New
    succeeds; DER texts are not decoded: a non-empty text stands for a
    certificate valid from instant 0 for 365 days, and no PEM text decodes. *)
Definition fixedEnv (now : Time)
           (verdict : Certificate -> VerifyOptions -> option error)
           (X : Type) (e : tlsE X) (s : unit) : X * unit :=
  match e in tlsE X return X * unit with
  | Now => (now, s)
  | Verify cert opts => (verdict cert opts, s)
  | CookiejarNew => (inl {| entries := [] |}, s)
  end.

Definition Day : Z := 24 * Hour.

Definition sampleParse (raw : list byte) : Certificate + error :=
  match raw with
  | [] => inr (External 1)
  | _ :: _ => inl {| Raw := raw; NotBefore := 0; NotAfter := 365 * Day |}
  end.

Definition samplePem (pem : list byte) : list Certificate := [].

Definition sampleChain : list (list byte) := [[x30; x82]].

Definition sampleCert : Certificate :=
  {| Raw := [x30; x82]; NotBefore := 0; NotAfter := 365 * Day |}.

(** A verifier that accepts no chain, as for a chain signed by an unrelated
    authority. *)
Definition unrelated (cert : Certificate) (opts : VerifyOptions)
  : option error :=
  Some (External (match CurrentTime opts with None => 10 | Some _ => 11 end)).

End httpclientfactory.

(** ** Measures of a run of the lock *)

Module lockmeasure.

Import instancelock.

Definition isKill (ev : osEvent) : bool :=
  match ev with
  | EvKillProcess _ _ => true
  | _ => false
  end.

Definition isLiveness (ev : osEvent) : bool :=
  match ev with
  | EvIsProcessRunning _ _ => true
  | _ => false
  end.

Definition isSleep (ev : osEvent) : bool :=
  match ev with
  | EvSleep _ => true
  | _ => false
  end.

(** The time spent in time.Sleep, in nanoseconds. *)
Fixpoint sleepTotal (tr : list osEvent) : Z :=
  match tr with
  | [] => 0
  | EvSleep d :: tr' => d + sleepTotal tr'
  | _ :: tr' => sleepTotal tr'
  end.

Definition count (f : osEvent -> bool) (tr : list osEvent) : nat :=
  List.length (filter f tr).



End lockmeasure.

(** ** cmd main *)

Module cmdmain.

Import instancelock.

Local Open Scope prog_scope.

(** Two interfaces side by side. *)
Variant sumE (E1 E2 : Type -> Type) (X : Type) : Type :=
| inlE (e : E1 X)
| inrE (e : E2 X).

Arguments inlE {E1 E2 X} e.
Arguments inrE {E1 E2 X} e.

(** A program of the first interface as a program of both. *)
Fixpoint liftL {E1 E2 : Type -> Type} {A : Type} (p : prog E1 A)
  : prog (sumE E1 E2) A :=
  match p with
  | Ret a => Ret a
  | Vis e k => Vis (inlE e) (fun x => liftL (k x))
  end.

(** What main and instancelock.New call besides the calls of the lock:
    os.TempDir, os.Getpid, slog at the levels Error and Warn with the
    attribute "error", fmt.Fprintf to os.Stderr, wire.InitializeModeSelector
    and StartAndWaitForCompletion of the mode selector it returns. *)
Inductive hostE : Type -> Type :=
| TempDir : hostE string
| Getpid : hostE Z
| SlogError (msg : string) (err : error) : hostE unit
| SlogWarn (msg : string) (err : error) : hostE unit
| FprintfStderr (text : string) : hostE unit
| InitializeModeSelector : hostE (option error)
| StartAndWaitForCompletion : hostE (option error).

Definition mainE : Type -> Type := sumE osE hostE.

Inductive mainEvent : Type :=
| MOs (ev : osEvent)
| MTempDir (dir : string)
| MGetpid (pid : Z)
| MSlogError (msg : string) (err : error)
| MSlogWarn (msg : string) (err : error)
| MStderr (text : string)
| MInitializeModeSelector (err : option error)
| MStartAndWaitForCompletion (err : option error).

Definition hostLog (X : Type) (e : hostE X) : X -> mainEvent :=
  match e in hostE X return X -> mainEvent with
  | TempDir => MTempDir
  | Getpid => MGetpid
  | SlogError msg err => fun _ => MSlogError msg err
  | SlogWarn msg err => fun _ => MSlogWarn msg err
  | FprintfStderr text => fun _ => MStderr text
  | InitializeModeSelector => MInitializeModeSelector
  | StartAndWaitForCompletion => MStartAndWaitForCompletion
  end.

Definition mainLog (X : Type) (e : mainE X) : X -> mainEvent :=
  match e with
  | inlE e => fun x => MOs (osLog X e x)
  | inrE e => hostLog X e
  end.

(** How a Go function ends: it returns, or the process has left through
    os.Exit.  A deferred call runs when the function returns; os.Exit ends
    the program at once and deferred functions are not run. *)
Inductive exit (A : Type) : Type :=
| Returned (a : A)
| Exited (code : Z).

Arguments Returned {A} a.
Arguments Exited {A} code.

Definition osExit {A : Type} (code : Z) : prog mainE (exit A) :=
  Ret (Exited code).

Definition deferring {A : Type} (deferred : prog mainE unit)
           (body : prog mainE (exit A)) : prog mainE (exit A) :=
  r <- body ;;
  match r with
  | Returned a => deferred ;;; Ret (Returned a)
  | Exited code => Ret (Exited code)
  end.

Definition alreadyRunning : string :=
  "MATLAB MCP Core Server is already running. Only one instance is allowed."
  ++ String (ascii_of_N 10) "".

Section Main.

(** filepath.Join. *)
Variable Join : string -> string -> string.

(** instancelock.New creates a new instance lock.  The lock file will be
    created in the user's temp directory. *)
Definition New : prog mainE (InstanceLock * option error) :=
  tempDir <- call (inrE TempDir) ;;
  let lockFilePath := Join tempDir lockFileName in
  pid <- call (inrE Getpid) ;;
  Ret ({| lockFilePath := lockFilePath; pid := pid |}, None).

(** The function literal that main defers. *)
Definition releaseOnExit (instanceLock : InstanceLock) : prog mainE unit :=
  err <- liftL (Unlock instanceLock) ;;
  match err with
  | Some err =>
      call (inrE (SlogWarn "Failed to release instance lock on exit." err))
  | None => Ret tt
  end.

Definition main : prog mainE (exit unit) :=
  created <- New ;;
  let '(instanceLock, err) := created in
  match err with
  | Some err =>
      call (inrE (SlogError "Failed to create instance lock." err)) ;;;
      osExit 1
  | None =>
      r <- liftL (TryLockWithKill instanceLock true) ;;
      let '(acquired, err) := r in
      match err with
      | Some err =>
          call (inrE (SlogError "Failed to acquire instance lock." err)) ;;;
          osExit 1
      | None =>
          if negb acquired then
            call (inrE (FprintfStderr alreadyRunning)) ;;;
            osExit 0
          else
            deferring (releaseOnExit instanceLock)
              (initErr <- call (inrE InitializeModeSelector) ;;
               match initErr with
               | Some err =>
                   call (inrE (SlogError
                                 "Failed to initialize MATLAB MCP Core Server."
                                 err)) ;;;
                   osExit 1
               | None =>
                   startErr <- call (inrE StartAndWaitForCompletion) ;;
                   match startErr with
                   | Some _ => osExit 1
                   | None => osExit 0
                   end
               end)
      end
  end.

End Main.

(** *** The host main runs on

    The calls of the lock are answered by the model of the operating system;
    the other calls do not touch the file system. *)
Record Host : Type := {
  hostTempDir : string;
  hostPid : Z;
  initResult : option error;
  startResult : option error
}.

Definition host (o : Oracle) (hst : Host) (X : Type) (e : mainE X) (w : World)
  : X * World :=
  match e with
  | inlE e => os o X e w
  | inrE e =>
      match e in hostE X return X * World with
      | TempDir => (hostTempDir hst, w)
      | Getpid => (hostPid hst, w)
      | SlogError _ _ => (tt, w)
      | SlogWarn _ _ => (tt, w)
      | FprintfStderr _ => (tt, w)
      | InitializeModeSelector => (initResult hst, w)
      | StartAndWaitForCompletion => (startResult hst, w)
      end
  end.

(** The handler of the lock's calls inside a handler of main's. *)
Definition osPart {S : Type} (handle : forall X : Type, mainE X -> S -> X * S)
           (X : Type) (e : osE X) : S -> X * S :=
  handle X (inlE e).

Definition isOs (ev : mainEvent) : bool :=
  match ev with
  | MOs _ => true
  | _ => false
  end.

(** filepath.Join on a clean directory name, for running main. *)
Definition joinUnix (dir name : string) : string := dir ++ "/" ++ name.

Definition quietHost : Host :=
  {| hostTempDir := "/tmp"; hostPid := 4242;
     initResult := None; startResult := None |}.

End cmdmain.

(** ** Shapes of the runs of the verification callback *)

Module callbackshape.

Import httpclientfactory.

(** The options of the three attempts. *)
Definition atNow (pool : CertPool) : VerifyOptions :=
  {| Roots := pool; CurrentTime := None |}.
Definition later (pool : CertPool) (now : Time) : VerifyOptions :=
  {| Roots := pool; CurrentTime := Some (now + 24 * Hour) |}.
Definition earlier (pool : CertPool) (now : Time) : VerifyOptions :=
  {| Roots := pool; CurrentTime := Some (now - 24 * Hour) |}.

(** The events and the result of the callback once the chain has passed the
    coarse check at [now]: one, two or three attempts on the leaf. *)
Inductive verifyRun (pool : CertPool) (leaf : Certificate) (now : Time)
  : list tlsEvent -> option error -> Prop :=
| VerifiedAtNow :
    verifyRun pool leaf now
      [EvNow now; EvVerify leaf (atNow pool) None] None
| VerifiedLater (e1 : error) :
    verifyRun pool leaf now
      [EvNow now; EvVerify leaf (atNow pool) (Some e1);
       EvVerify leaf (later pool now) None] None
| VerifiedEarlier (e1 e2 : error) :
    verifyRun pool leaf now
      [EvNow now; EvVerify leaf (atNow pool) (Some e1);
       EvVerify leaf (later pool now) (Some e2);
       EvVerify leaf (earlier pool now) None] None
| Unverified (e1 e2 e3 : error) :
    verifyRun pool leaf now
      [EvNow now; EvVerify leaf (atNow pool) (Some e1);
       EvVerify leaf (later pool now) (Some e2);
       EvVerify leaf (earlier pool now) (Some e3)]
      (Some (Wrapf "certificate verification failed: %w" [] e3)).

Definition isNow (ev : tlsEvent) : bool :=
  match ev with
  | EvNow _ => true
  | _ => false
  end.

(** A verifier that accepts the sample certificate only when the reference
    time is set and lies in its validity window. *)
Definition strictVerifier (cert : Certificate) (opts : VerifyOptions)
  : option error :=
  match CurrentTime opts with
  | None => Some (External 20)
  | Some t =>
      if (NotBefore cert <=? t) && (t <=? NotAfter cert) then None
      else Some (External 21)
  end.

(** A PEM decoder for running the factory: any non-empty text holds the
    sample certificate. *)
Definition pemOfSample (pem : list byte) : list Certificate :=
  match pem with
  | [] => []
  | _ :: _ => [sampleCert]
  end.

(** The client the factory builds from the sample certificate. *)
Definition sampleClient : Client :=
  {| ClientTransport :=
       {| TLSClientConfig :=
            {| MinVersion := VersionTLS12;
               RootCAs := [sampleCert];
               InsecureSkipVerify := true;
               VerifyPeerCertificate :=
                 verifyPeerCertificate sampleParse [sampleCert] |} |};
     ClientJar := {| entries := [] |} |}.

End callbackshape.

(** * Properties *)

(** ** Decimal text *)

Section DecimalText.

Lemma digitChar_isDigit (d : Z) :
  0 <= d < 10 -> isDigit (digitChar d) = true /\ digitVal (digitChar d) = d.
Proof.
  intros Hd.
  assert (Hcases : d = 0 \/ d = 1 \/ d = 2 \/ d = 3 \/ d = 4 \/
                   d = 5 \/ d = 6 \/ d = 7 \/ d = 8 \/ d = 9) by lia.
  repeat (destruct Hcases as [-> | Hcases]; [split; reflexivity |]).
  subst d; split; reflexivity.
Qed.

(** Parsing what the digit loop printed gives the number back. *)
Lemma parse_format (fuel : nat) :
  forall n acc,
    0 <= n < 2 ^ Z.of_nat fuel ->
    parseDigits (formatDigits fuel n acc) 0 = parseDigits acc n.
Proof.
  induction fuel as [| fuel IH]; intros n acc Hn.
  - simpl in *. assert (n = 0) by lia. subst n.
    destruct acc; reflexivity.
  - cbn [formatDigits].
    destruct (n <? 10) eqn:Hlt.
    + apply Z.ltb_lt in Hlt.
      destruct (digitChar_isDigit n) as [Hd Hv]; [lia |].
      cbn [parseDigits]. rewrite Hd, Hv. reflexivity.
    + apply Z.ltb_ge in Hlt.
      rewrite IH.
      * destruct (digitChar_isDigit (n mod 10)) as [Hd Hv].
        { apply Z.mod_pos_bound; lia. }
        cbn [parseDigits]. rewrite Hd, Hv.
        f_equal. rewrite (Z.div_mod n 10) at 3 by lia. lia.
      * rewrite Nat2Z.inj_succ, Z.pow_succ_r in Hn by lia.
        split; [apply Z.div_pos; lia |].
        apply Z.div_lt_upper_bound; lia.
Qed.

(** The digit loop prints digits only, and at least one. *)
Lemma formatDigits_digits (fuel : nat) :
  forall n acc,
    0 <= n < 2 ^ Z.of_nat fuel ->
    Forall (fun c => isDigit c = true) acc ->
    Forall (fun c => isDigit c = true) (formatDigits fuel n acc).
Proof.
  induction fuel as [| fuel IH]; intros n acc Hn Hacc; [exact Hacc |].
  cbn [formatDigits].
  destruct (n <? 10) eqn:Hlt.
  - apply Z.ltb_lt in Hlt. constructor; [| exact Hacc].
    apply digitChar_isDigit; lia.
  - apply Z.ltb_ge in Hlt. apply IH.
    + rewrite Nat2Z.inj_succ, Z.pow_succ_r in Hn by lia.
      split; [apply Z.div_pos; lia |].
      apply Z.div_lt_upper_bound; lia.
    + constructor; [| exact Hacc].
      apply digitChar_isDigit, Z.mod_pos_bound; lia.
Qed.

Lemma formatDigits_nonempty (fuel : nat) :
  forall n acc, formatDigits (S fuel) n acc <> [].
Proof.
  induction fuel as [| fuel IH]; intros n acc; cbn [formatDigits].
  - destruct (n <? 10); discriminate.
  - destruct (n <? 10); [discriminate |]. apply (IH (n / 10)).
Qed.

Lemma log2_fuel (n : Z) :
  0 <= n -> 0 <= n < 2 ^ Z.of_nat (S (Z.to_nat (Z.log2 n))).
Proof.
  intros Hn. split; [exact Hn |].
  rewrite Nat2Z.inj_succ, Z2Nat.id by apply Z.log2_nonneg.
  destruct (Z.eq_dec n 0) as [-> | Hnz]; [reflexivity |].
  apply Z.log2_spec. lia.
Qed.

Lemma formatUnsigned_spec (n : Z) :
  0 <= n ->
  parseDigits (formatUnsigned n) 0 = Some n
  /\ Forall (fun c => isDigit c = true) (formatUnsigned n)
  /\ formatUnsigned n <> [].
Proof.
  intros Hn. unfold formatUnsigned. repeat split.
  - rewrite parse_format by (apply log2_fuel; exact Hn). reflexivity.
  - apply formatDigits_digits; [apply log2_fuel; exact Hn | constructor].
  - apply formatDigits_nonempty.
Qed.

(** No white-space rune starts or ends with such a byte. *)
Lemma stripAny_decimalByte (c : ascii) (s : list ascii) :
  isDecimalByte c = true ->
  stripAny spaceRunes (c :: s) = None
  /\ stripAny (map (@rev ascii) spaceRunes) (c :: s) = None.
Proof.
  destruct c as [[] [] [] [] [] [] [] []]; intros H;
    try discriminate H; split; reflexivity.
Qed.

Lemma isDigit_not_sign (c : ascii) :
  isDigit c = true -> Ascii.eqb c "-" = false /\ Ascii.eqb c "+" = false.
Proof.
  destruct c as [[] [] [] [] [] [] [] []]; intros H;
    try discriminate H; split; reflexivity.
Qed.

(** TrimSpace leaves a text alone that starts and ends with bytes of a
    decimal text. *)
Lemma TrimSpace_decimal (l : list ascii) :
  l <> [] ->
  Forall (fun c => isDecimalByte c = true) l ->
  TrimSpace (string_of_list_ascii l) = string_of_list_ascii l.
Proof.
  intros Hne Hall. unfold TrimSpace.
  rewrite list_ascii_of_string_of_list_ascii.
  assert (Hleft : TrimLeftSpace l = l).
  { unfold TrimLeftSpace. destruct l as [| c s]; [contradiction |].
    cbn [List.length trimFuel].
    inversion Hall as [| ? ? Hc _]; subst.
    destruct (stripAny_decimalByte c s Hc) as [-> _]. reflexivity. }
  rewrite Hleft. unfold TrimRightSpace.
  assert (Hrev : Forall (fun c => isDecimalByte c = true) (rev l))
    by (apply Forall_rev; exact Hall).
  rewrite <- length_rev.
  destruct (rev l) as [| c s] eqn:Hr.
  - apply (f_equal (@rev ascii)) in Hr. rewrite rev_involutive in Hr.
    contradiction.
  - cbn [List.length trimFuel].
    inversion Hrev as [| ? ? Hc _]; subst.
    destruct (stripAny_decimalByte c s Hc) as [_ ->].
    rewrite <- Hr, rev_involutive. reflexivity.
Qed.

(** Atoi reads back what Itoa printed, also through TrimSpace. *)
Lemma Atoi_Itoa (i : Z) : isInt i -> Atoi (Itoa i) = Some i.
Proof.
  intros Hi. unfold Atoi, Itoa.
  rewrite list_ascii_of_string_of_list_ascii.
  assert (Hb : isIntb i = true).
  { unfold isIntb. apply andb_true_intro.
    split; apply Z.leb_le; apply Hi. }
  destruct (i <? 0) eqn:Hneg.
  - apply Z.ltb_lt in Hneg.
    destruct (formatUnsigned_spec (- i)) as (Hp & _ & Hne); [lia |].
    change (Ascii.eqb "-" "-") with true. cbv iota.
    destruct (formatUnsigned (- i)) as [| c s]; [contradiction |].
    rewrite Hp, Z.opp_involutive, Hb. reflexivity.
  - apply Z.ltb_ge in Hneg.
    destruct (formatUnsigned_spec i) as (Hp & Hd & Hne); [lia |].
    destruct (formatUnsigned i) as [| c s]; [contradiction |].
    inversion Hd as [| ? ? Hc _]; subst.
    destruct (isDigit_not_sign c Hc) as [-> ->].
    rewrite Hp, Hb. reflexivity.
Qed.

Lemma TrimSpace_Itoa (i : Z) : TrimSpace (Itoa i) = Itoa i.
Proof.
  unfold Itoa. apply TrimSpace_decimal.
  - destruct (i <? 0); [discriminate |].
    unfold formatUnsigned. apply formatDigits_nonempty.
  - assert (Hdig : forall n, 0 <= n ->
              Forall (fun c => isDecimalByte c = true) (formatUnsigned n)).
    { intros n Hn. destruct (formatUnsigned_spec n Hn) as (_ & Hd & _).
      eapply Forall_impl; [| exact Hd].
      intros c Hc. unfold isDecimalByte. rewrite Hc. reflexivity. }
    destruct (i <? 0) eqn:Hneg.
    + apply Z.ltb_lt in Hneg. constructor; [reflexivity |].
      apply Hdig. lia.
    + apply Z.ltb_ge in Hneg. apply Hdig. lia.
Qed.

(** The lock file written by a process is read back as its PID. *)
Lemma Atoi_TrimSpace_Itoa (i : Z) :
  isInt i -> Atoi (TrimSpace (Itoa i)) = Some i.
Proof.
  intros Hi. rewrite TrimSpace_Itoa. apply Atoi_Itoa, Hi.
Qed.

End DecimalText.

Example Itoa_99999 : Itoa 99999 = "99999"%string.
Proof. reflexivity. Qed.
Example Itoa_neg : Itoa (-120) = "-120"%string.
Proof. reflexivity. Qed.
Example Atoi_plus : Atoi "+42" = Some 42.
Proof. reflexivity. Qed.
Example Atoi_range : Atoi "9223372036854775808" = None.
Proof. reflexivity. Qed.
Example Atoi_min : Atoi "-9223372036854775808" = Some (-9223372036854775808).
Proof. reflexivity. Qed.
Example Atoi_junk : Atoi "12a" = None.
Proof. reflexivity. Qed.
Example TrimSpace_ex :
  TrimSpace (String (ascii_of_N 9) (" 4711 " ++ String (ascii_of_N 10) ""))%string = "4711"%string.
Proof. reflexivity. Qed.
Example TrimSpace_nbsp :
  TrimSpace (String (ascii_of_N 194) (String (ascii_of_N 160) "7 1")) = "7 1"%string.
Proof. reflexivity. Qed.

(** ** Running programs *)

Section RunFacts.

Context {E : Type -> Type} {S T : Type}.
Variable handle : forall X : Type, E X -> S -> X * S.
Variable log : forall X : Type, E X -> X -> T.

Lemma run_bind {A B : Type} (m : prog E A) (f : A -> prog E B) :
  forall s,
    run handle log (bind m f) s =
    let '(a, s1, tr1) := run handle log m s in
    let '(b, s2, tr2) := run handle log (f a) s1 in
    (b, s2, tr1 ++ tr2).
Proof.
  induction m as [a | X e k IH]; intros s; cbn [bind run].
  - destruct (run handle log (f a) s) as [[b s2] tr2]. reflexivity.
  - destruct (handle X e s) as [x s1]. rewrite IH.
    destruct (run handle log (k x) s1) as [[a s2] tr1].
    destruct (run handle log (f a) s2) as [[b s3] tr2]. reflexivity.
Qed.

Lemma run_call_bind {X B : Type} (e : E X) (f : X -> prog E B) (s : S) :
  run handle log (bind (call e) f) s =
  let (x, s1) := handle X e s in
  let '(b, s2, tr) := run handle log (f x) s1 in
  (b, s2, log X e x :: tr).
Proof. reflexivity. Qed.

Lemma steps_run {A : Type} (n : nat) :
  forall (p : prog E A) s a s' tr,
    steps handle log n p s = (Ret a, s', tr) ->
    run handle log p s = (a, s', tr).
Proof.
  induction n as [| n IH]; intros p s a s' tr H.
  - cbn in H. injection H as -> -> <-. reflexivity.
  - cbn [steps] in H. destruct p as [b | X e k].
    + cbn [step] in H.
      destruct (steps handle log n (Ret b) s) as [[p2 s2] tr2] eqn:Hn.
      injection H as -> -> <-. apply IH in Hn. exact Hn.
    + cbn [step] in H. cbn [run].
      destruct (handle X e s) as [x s1].
      destruct (steps handle log n (k x) s1) as [[p2 s2] tr2] eqn:Hn.
      injection H as -> -> <-. apply IH in Hn. rewrite Hn. reflexivity.
Qed.

End RunFacts.

(** ** The instance lock *)

Import instancelock.

Section LockRuns.

(** Any environment whatever: the answers of the handler are arbitrary. *)
Context {S : Type}.
Variable handle : forall X : Type, osE X -> S -> X * S.

Lemma createLock_run (l : InstanceLock) (s : S) :
  exists x s',
    run handle osLog (createLock l) s = (createResult x, s', [writeEv l x]).
Proof.
  unfold createLock. rewrite run_call_bind.
  destruct (handle _ (WriteFile (lockFilePath l) (Itoa (pid l)) 420) s)
    as [x s1].
  exists x, s1. destruct x as [err |]; reflexivity.
Qed.

Lemma remove_createLock_run (l : InstanceLock) (s : S) :
  exists y x s',
    run handle osLog (bind (call (Remove (lockFilePath l))) (fun _ => createLock l)) s
    = (createResult x, s', [EvRemove (lockFilePath l) y; writeEv l x]).
Proof.
  rewrite run_call_bind.
  destruct (handle _ (Remove (lockFilePath l)) s) as [y s1].
  destruct (createLock_run l s1) as (x & s2 & ->).
  exists y, x, s2. reflexivity.
Qed.

Lemma waitForExit_run (l : InstanceLock) (existingPID : Z) (n : nat) :
  forall s, exists alive seenDead s',
    run handle osLog (waitForExit l existingPID n) s
    = (tt, s', pollTrace existingPID alive seenDead)
    /\ (if seenDead then alive < n else alive = n)%nat.
Proof.
  induction n as [| n IH]; intros s.
  - exists O, false, s. split; reflexivity.
  - cbn [waitForExit]. unfold isProcessRunning. rewrite run_call_bind.
    destruct (handle _ (IsProcessRunning existingPID) s) as [[|] s1].
    + cbn [negb]. rewrite run_call_bind.
      destruct (handle _ (Sleep (100 * Millisecond)) s1) as [[] s2].
      destruct (IH s2) as (alive & seenDead & s3 & -> & Hn).
      exists (Datatypes.S alive), seenDead, s3. split; [reflexivity |].
      destruct seenDead; lia.
    + exists O, true, s1. split; [reflexivity | lia].
Qed.

(** Every run of [TryLockWithKill] has one of the eight shapes of
    [lockRun]. *)
Lemma TryLockWithKill_run (l : InstanceLock) (killExisting : bool) (s : S) :
  forall r s' tr,
    run handle osLog (TryLockWithKill l killExisting) s = (r, s', tr) ->
    lockRun l killExisting tr r.
Proof.
  intros r s' tr. unfold TryLockWithKill. rewrite run_call_bind.
  destruct (handle _ (Stat (lockFilePath l)) s) as [[e |] s1].
  { destruct (createLock_run l s1) as (x & s2 & ->).
    intros H; injection H as <- _ <-. constructor. }
  rewrite run_call_bind.
  destruct (handle _ (ReadFile (lockFilePath l)) s1) as [[content | e] s2].
  2: { destruct (remove_createLock_run l s2) as (y & x & s3 & ->).
       intros H; injection H as <- _ <-. constructor. }
  destruct (Atoi (TrimSpace content)) as [existingPID |] eqn:Hparse.
  2: { destruct (remove_createLock_run l s2) as (y & x & s3 & ->).
       intros H; injection H as <- _ <-. constructor. exact Hparse. }
  destruct (existingPID =? pid l) eqn:Hown.
  { apply Z.eqb_eq in Hown. subst existingPID.
    intros H; injection H as <- _ <-. constructor. exact Hparse. }
  apply Z.eqb_neq in Hown.
  unfold isProcessRunning. rewrite run_call_bind.
  destruct (handle _ (IsProcessRunning existingPID) s2) as [[|] s3].
  2: { destruct (remove_createLock_run l s3) as (y & x & s4 & ->).
       intros H; injection H as <- _ <-. constructor; assumption. }
  destruct killExisting.
  2: { intros H; injection H as <- _ <-. constructor; auto. }
  unfold killProcess. rewrite run_call_bind.
  destruct (handle _ (KillProcess existingPID) s3) as [[e |] s4].
  { intros H; injection H as <- _ <-. constructor; auto. }
  rewrite run_bind.
  destruct (waitForExit_run l existingPID 10 s4)
    as (alive & seenDead & s5 & -> & Hn).
  destruct (remove_createLock_run l s5) as (y & x & s6 & ->).
  intros H; injection H as <- _ <-.
  apply (RunKilled l true content existingPID alive seenDead y x); auto.
Qed.

End LockRuns.

(** ** The model of the operating system *)

Section OsModel.

Variable o : Oracle.

(** A call that is not a write and not a successful removal leaves every
    file as it was. *)
Lemma os_frame (X : Type) (e : osE X) (w : World) :
  forall x w1,
    os o X e w = (x, w1) ->
    modifies (osLog X e x) = false ->
    files w1 = files w.
Proof.
  intros x w1.
  destruct e; cbn [os osLog modifies].
  - destruct (files w name); intros H; injection H as <- <-; reflexivity.
  - destruct (files w name); [destruct (readFault o (ticks w)) |];
      intros H; injection H as <- <-; reflexivity.
  - destruct (files w name); [destruct (removeFault o (ticks w)) |];
      intros H; injection H as <- <-; intros Hm;
      solve [reflexivity | discriminate Hm].
  - intros _ Hm. discriminate Hm.
  - intros H; injection H as <- <-; reflexivity.
  - intros H; injection H as <- <-; reflexivity.
  - intros H; injection H as <- <-; reflexivity.
Qed.

Lemma os_write (name data : string) (perm : N) (w w1 : World) :
  os o _ (WriteFile name data perm) w = (None, w1) ->
  files w1 name = Some data.
Proof.
  cbn [os]. destruct (writeFault o (ticks w)) as [[err truncated] |].
  - discriminate.
  - intros H; injection H as <-. cbn. rewrite String.eqb_refl. reflexivity.
Qed.

Lemma os_read (name content : string) (w w1 : World) :
  os o _ (ReadFile name) w = (inl content, w1) ->
  files w name = Some content.
Proof.
  cbn [os]. destruct (files w name) as [c |]; [| discriminate].
  destruct (readFault o (ticks w)); [discriminate |].
  intros H; injection H as <- _. reflexivity.
Qed.

Lemma exec_nil {A : Type} (p : prog osE A) (w : World) :
  forall a w', exec o p w = (a, w', []) -> w' = w.
Proof.
  intros a w'. unfold exec. destruct p as [b | X e k]; cbn [run].
  - intros H; injection H as _ <-. reflexivity.
  - destruct (os o X e w) as [x w1].
    destruct (run (os o) osLog (k x) w1) as [[b w2] tr]. discriminate.
Qed.

(** Without modifying events the files are untouched. *)
Lemma exec_frame {A : Type} (p : prog osE A) :
  forall w a w' tr,
    exec o p w = (a, w', tr) ->
    quiet tr = true ->
    files w' = files w.
Proof.
  unfold exec.
  induction p as [b | X e k IH]; intros w a w' tr; cbn [run].
  - intros H; injection H as _ <- _. reflexivity.
  - destruct (os o X e w) as [x w1] eqn:Hos.
    destruct (run (os o) osLog (k x) w1) as [[b w2] tr1] eqn:Hrun.
    intros H; injection H as _ <- <-. cbn [quiet forallb].
    intros Hq. apply andb_prop in Hq. destruct Hq as [Hm Hq].
    rewrite (IH x w1 b w2 tr1 Hrun Hq).
    apply (os_frame X e w x w1 Hos).
    destruct (modifies (osLog X e x)); [discriminate Hm | reflexivity].
Qed.

(** After a run that ends with a successful write, the file holds what was
    written. *)
Lemma exec_last_write {A : Type} (p : prog osE A) :
  forall w a w' tr name data perm,
    exec o p w = (a, w', tr ++ [EvWriteFile name data perm None]) ->
    files w' name = Some data.
Proof.
  induction p as [b | X e k IH]; intros w a w' tr name data perm.
  - unfold exec; cbn [run]. intros H; injection H as _ _ H.
    destruct tr; discriminate H.
  - unfold exec; cbn [run].
    destruct (os o X e w) as [x w1] eqn:Hos.
    destruct (run (os o) osLog (k x) w1) as [[b w2] tr1] eqn:Hrun.
    intros H; injection H as _ <- H.
    destruct tr as [| ev tr]; cbn [app] in H; injection H as Hev Htr.
    + subst tr1. apply exec_nil in Hrun. subst w2.
      destruct e; cbn [osLog] in Hev; try discriminate Hev.
      injection Hev as -> -> _ ->. apply (os_write _ _ _ _ _ Hos).
    + subst tr1. apply (IH x w1 b w2 tr name data perm Hrun).
Qed.

(** A successful read before any modification returns the content the file
    had at the start. *)
Lemma exec_first_read {A : Type} (p : prog osE A) :
  forall w a w' pre post name content,
    exec o p w = (a, w', pre ++ EvReadFile name (inl content) :: post) ->
    quiet pre = true ->
    files w name = Some content.
Proof.
  induction p as [b | X e k IH]; intros w a w' pre post name content.
  - unfold exec; cbn [run]. intros H; injection H as _ _ H.
    destruct pre; discriminate H.
  - unfold exec; cbn [run].
    destruct (os o X e w) as [x w1] eqn:Hos.
    destruct (run (os o) osLog (k x) w1) as [[b w2] tr1] eqn:Hrun.
    intros H; injection H as _ _ H.
    destruct pre as [| ev pre]; cbn [app] in H; injection H as Hev Htr.
    + intros _. destruct e; cbn [osLog] in Hev; try discriminate Hev.
      injection Hev as -> ->. apply (os_read _ _ _ _ Hos).
    + subst tr1 ev. cbn [quiet forallb]. intros Hq.
      apply andb_prop in Hq. destruct Hq as [Hm Hq].
      rewrite <- (os_frame X e w x w1 Hos)
        by (destruct (modifies (osLog X e x)); [discriminate Hm | reflexivity]).
      apply (IH x w1 b w2 pre post name content Hrun Hq).
Qed.

End OsModel.

(** ** What a call of TryLockWithKill does *)

Section LockClaims.

Variable o : Oracle.

Lemma pollTrace_events (existingPID : Z) (alive : nat) (seenDead : bool) :
  forall ev,
    In ev (pollTrace existingPID alive seenDead) ->
    ev = EvIsProcessRunning existingPID true
    \/ ev = EvSleep (100 * Millisecond)
    \/ (ev = EvIsProcessRunning existingPID false /\ seenDead = true).
Proof.
  intros ev. unfold pollTrace. intros H. apply in_app_or in H.
  destruct H as [H | H].
  - induction alive as [| alive IH]; cbn in H; [contradiction |].
    destruct H as [<- | [<- | H]]; auto.
  - destruct seenDead; cbn in H; [| contradiction].
    destruct H as [<- | []]. auto.
Qed.

Lemma pollTrace_quiet (existingPID : Z) (alive : nat) (seenDead : bool) :
  quiet (pollTrace existingPID alive seenDead) = true.
Proof.
  unfold quiet. apply forallb_forall. intros ev H.
  apply pollTrace_events in H.
  destruct H as [-> | [-> | [-> _]]]; reflexivity.
Qed.

Lemma pollTrace_checks (existingPID : Z) (alive : nat) (seenDead : bool) :
  livenessChecks existingPID (pollTrace existingPID alive seenDead)
  = (alive + if seenDead then 1 else 0)%nat.
Proof.
  unfold pollTrace. induction alive as [| alive IH].
  - destruct seenDead; cbn; rewrite ?Z.eqb_refl; reflexivity.
  - cbn [repeat List.concat app livenessChecks].
    rewrite Z.eqb_refl, IH. reflexivity.
Qed.

(** A run that ends with a successful write of the caller's PID leaves it in
    the lock file. *)
Lemma claimed_file {A : Type} (p : prog osE A) (l : InstanceLock) :
  forall w a w' pre,
    exec o p w = (a, w', pre ++ [writeEv l None]) ->
    files w' (lockFilePath l) = Some (Itoa (pid l)).
Proof.
  intros w a w' pre H. apply (exec_last_write o p w a w' pre _ _ _ H).
Qed.

(** C1.  For every PID P: when the lock file exists, its content parses to
    P, and the liveness check reports P as not running, TryLockWithKill, for
    either value of killExisting, returns Acquired and the lock file holds
    the caller's PID as decimal text afterwards, provided the write of the
    lock file succeeds. *)
Theorem dead_owner_lock_is_acquired
        (w : World) (l : InstanceLock) (killExisting : bool)
        (content : string) (P : Z) :
  forall r w' tr,
    exec o (TryLockWithKill l killExisting) w = (r, w', tr) ->
    files w (lockFilePath l) = Some content ->
    Atoi (TrimSpace content) = Some P ->
    In (EvIsProcessRunning P false) tr ->
    writesSucceed tr ->
    r = Acquired /\ files w' (lockFilePath l) = Some (Itoa (pid l)).
Proof.
  intros r w' tr Hexec _ _ Hdead Hwrite.
  pose proof (TryLockWithKill_run (os o) l killExisting w r w' tr Hexec) as Hrun.
  inversion Hrun; subst;
    try solve [cbn in Hdead; intuition discriminate].
  - (* the recorded process was found dead *)
    assert (x = None) as ->.
    { apply (Hwrite (lockFilePath l) (Itoa (pid l)) 420%N x).
      unfold writeEv. cbn. auto 10. }
    split; [reflexivity |].
    eapply (claimed_file _ l w _ w'
              [EvStat _ None; EvReadFile _ (inl _); EvIsProcessRunning _ false;
               EvRemove _ y]).
    exact Hexec.
  - (* it was killed and seen to exit while polling *)
    assert (x = None) as ->.
    { apply (Hwrite (lockFilePath l) (Itoa (pid l)) 420%N x).
      repeat (apply in_or_app; right). unfold writeEv. cbn. auto. }
    split; [reflexivity |].
    eapply (claimed_file _ l w _ w'
              ([EvStat _ None; EvReadFile _ (inl _); EvIsProcessRunning _ true;
                EvKillProcess _ None]
               ++ pollTrace existingPID alive seenDead ++ [EvRemove _ y])).
    rewrite <- !app_assoc. exact Hexec.
Qed.

(** The same holds when the call cannot stat or read the lock file: a
    record of another process that is never reported running is replaced. *)
Lemma stale_record_is_replaced
      (w : World) (l : InstanceLock) (killExisting : bool)
      (content : string) (P : Z) :
  forall r w' tr,
    exec o (TryLockWithKill l killExisting) w = (r, w', tr) ->
    files w (lockFilePath l) = Some content ->
    Atoi (TrimSpace content) = Some P ->
    P <> pid l ->
    (forall b, In (EvIsProcessRunning P b) tr -> b = false) ->
    writesSucceed tr ->
    r = Acquired /\ files w' (lockFilePath l) = Some (Itoa (pid l)).
Proof.
  intros r w' tr Hexec Hfile Hparse Hother Hdead Hwrite.
  pose proof (TryLockWithKill_run (os o) l killExisting w r w' tr Hexec) as Hrun.
  assert (Hsame : forall c post,
             tr = EvStat (lockFilePath l) None
                  :: EvReadFile (lockFilePath l) (inl c) :: post ->
             Atoi (TrimSpace c) = Some P).
  { intros c post ->.
    pose proof (exec_first_read o _ w r w' [EvStat _ None] _ _ _ Hexec eq_refl)
      as Hread.
    rewrite Hfile in Hread. injection Hread as <-. exact Hparse. }
  assert (Hclaim : forall x pre,
             tr = pre ++ [writeEv l x] ->
             createResult x = Acquired
             /\ files w' (lockFilePath l) = Some (Itoa (pid l))).
  { intros x pre Htr.
    assert (x = None) as ->.
    { apply (Hwrite (lockFilePath l) (Itoa (pid l)) 420%N x).
      rewrite Htr. apply in_or_app. right. left. reflexivity. }
    split; [reflexivity |]. subst tr.
    apply (claimed_file _ l w _ w' pre Hexec). }
  assert (Halive : forall c Q post,
             tr = EvStat (lockFilePath l) None
                  :: EvReadFile (lockFilePath l) (inl c)
                  :: EvIsProcessRunning Q true :: post ->
             Atoi (TrimSpace c) = Some Q -> False).
  { intros c Q post Htr Hq.
    rewrite (Hsame c _ Htr) in Hq. injection Hq as <-.
    assert (true = false) as Habs
        by (apply Hdead; rewrite Htr; cbn; auto).
    discriminate Habs. }
  inversion Hrun as
      [e x Htr Hr | e y x Htr Hr | c y x Hp Htr Hr | c Hp Htr Hr
       | c q y x Hp Hq Htr Hr | c q Hp Hq Hk Htr Hr | c q e Hp Hq Hk Htr Hr
       | c q alive seenDead y x Hp Hq Hk Hn Htr Hr].
  - apply (Hclaim x [EvStat (lockFilePath l) (Some e)]). rewrite <- Htr. reflexivity.
  - apply (Hclaim x [EvStat (lockFilePath l) None;
                     EvReadFile (lockFilePath l) (inr e);
                     EvRemove (lockFilePath l) y]). rewrite <- Htr. reflexivity.
  - rewrite (Hsame c _ (eq_sym Htr)) in Hp. discriminate Hp.
  - rewrite (Hsame c _ (eq_sym Htr)) in Hp. injection Hp as Hp. contradiction.
  - apply (Hclaim x [EvStat (lockFilePath l) None;
                     EvReadFile (lockFilePath l) (inl c);
                     EvIsProcessRunning q false;
                     EvRemove (lockFilePath l) y]). rewrite <- Htr. reflexivity.
  - exfalso. apply (Halive c q _ (eq_sym Htr) Hp).
  - exfalso. apply (Halive c q _ (eq_sym Htr) Hp).
  - exfalso. apply (Halive c q _ (eq_sym Htr) Hp).
Qed.

(** C4.  When the lock file holds a PID other than the caller's, that PID is
    reported running and killExisting is false, TryLockWithKill returns
    Rejected having only looked: it calls Stat, ReadFile and the liveness
    check, nothing is written, removed or killed, and every file is as it
    was. *)
Theorem live_owner_rejects_without_effect
        (w : World) (l : InstanceLock) (content : string) (P : Z) :
  forall r w' tr,
    exec o (TryLockWithKill l false) w = (r, w', tr) ->
    files w (lockFilePath l) = Some content ->
    Atoi (TrimSpace content) = Some P ->
    P <> pid l ->
    In (EvIsProcessRunning P true) tr ->
    r = Rejected
    /\ tr = [EvStat (lockFilePath l) None;
             EvReadFile (lockFilePath l) (inl content);
             EvIsProcessRunning P true]
    /\ files w' = files w.
Proof.
  intros r w' tr Hexec Hfile _ _ Halive.
  pose proof (TryLockWithKill_run (os o) l false w r w' tr Hexec) as Hrun.
  inversion Hrun; subst;
    try solve [cbn in Halive; intuition discriminate | discriminate].
  cbn in Halive.
  destruct Halive as [Hev | [Hev | [Hev | []]]]; try discriminate Hev.
  injection Hev as ->.
  pose proof (exec_first_read o _ w _ w' [EvStat _ None] _ _ _ Hexec eq_refl)
    as Hread.
  rewrite Hfile in Hread. injection Hread as <-.
  split; [reflexivity |]. split; [reflexivity |].
  apply (exec_frame o _ w _ w' _ Hexec). reflexivity.
Qed.

(** C5.  With killExisting true, once the kill request for the competing PID
    has succeeded, TryLockWithKill checks the liveness of that PID at most
    10 times, sleeping 100ms after each check that finds it running and
    stopping at the first check that finds it gone; then, whether or not the
    process was seen to exit, it removes the lock file and writes the
    caller's PID, and returns Acquired when that write succeeds. *)
Theorem kill_then_bounded_wait_then_claim
        (w : World) (l : InstanceLock) (P : Z) :
  forall r w' tr,
    exec o (TryLockWithKill l true) w = (r, w', tr) ->
    In (EvKillProcess P None) tr ->
    exists content alive seenDead y x,
      tr = [EvStat (lockFilePath l) None;
            EvReadFile (lockFilePath l) (inl content);
            EvIsProcessRunning P true;
            EvKillProcess P None]
           ++ pollTrace P alive seenDead
           ++ [EvRemove (lockFilePath l) y; writeEv l x]
      /\ (if seenDead then alive < 10 else alive = 10)%nat
      /\ (livenessChecks P (pollTrace P alive seenDead) <= 10)%nat
      /\ r = createResult x
      /\ (x = None ->
          r = Acquired /\ files w' (lockFilePath l) = Some (Itoa (pid l))).
Proof.
  intros r w' tr Hexec Hkill.
  pose proof (TryLockWithKill_run (os o) l true w r w' tr Hexec) as Hrun.
  inversion Hrun; subst;
    try solve [cbn in Hkill; intuition discriminate | discriminate].
  assert (existingPID = P) as ->.
  { cbn in Hkill.
    destruct Hkill as [Hev | [Hev | [Hev | [Hev | Hev]]]]; try discriminate Hev.
    - injection Hev as ->. reflexivity.
    - apply in_app_or in Hev. destruct Hev as [Hev | Hev].
      + apply pollTrace_events in Hev.
        destruct Hev as [Hev | [Hev | [Hev _]]]; discriminate Hev.
      + cbn in Hev. destruct Hev as [Hev | [Hev | []]]; discriminate Hev. }
  exists content, alive, seenDead, y, x.
  split; [reflexivity |]. split; [assumption |]. split.
  { rewrite pollTrace_checks. destruct seenDead; lia. }
  split; [reflexivity |].
  intros ->. split; [reflexivity |].
  eapply (claimed_file _ l w _ w'
            ([EvStat _ None; EvReadFile _ (inl _); EvIsProcessRunning _ true;
              EvKillProcess _ None]
             ++ pollTrace P alive seenDead ++ [EvRemove _ y])).
  rewrite <- !app_assoc. exact Hexec.
Qed.

(** C6.  When the kill request for the running competing PID fails,
    TryLockWithKill returns false with an error that wraps the failure, and
    does not claim the lock: the kill request is its last call, nothing is
    written or removed, and every file is as it was. *)
Theorem failed_kill_is_reported
        (w : World) (l : InstanceLock) (killExisting : bool)
        (P : Z) (e : error) :
  forall r w' tr,
    exec o (TryLockWithKill l killExisting) w = (r, w', tr) ->
    In (EvKillProcess P (Some e)) tr ->
    killExisting = true
    /\ r = (false,
            Some (Wrapf "failed to kill existing instance (PID %d): %w" [P] e))
    /\ (exists content,
          tr = [EvStat (lockFilePath l) None;
                EvReadFile (lockFilePath l) (inl content);
                EvIsProcessRunning P true;
                EvKillProcess P (Some e)])
    /\ forallb (fun ev => negb (isWrite ev)) tr = true
    /\ files w' = files w.
Proof.
  intros r w' tr Hexec Hkill.
  pose proof (TryLockWithKill_run (os o) l killExisting w r w' tr Hexec) as Hrun.
  inversion Hrun; subst;
    try solve [cbn in Hkill; intuition discriminate].
  - cbn in Hkill.
    destruct Hkill as [Hev | [Hev | [Hev | [Hev | []]]]]; try discriminate Hev.
    injection Hev as -> ->.
    split; [reflexivity |]. split; [reflexivity |].
    split; [exists content; reflexivity |].
    split; [reflexivity |].
    apply (exec_frame o _ w _ w' _ Hexec). reflexivity.
  - exfalso. cbn in Hkill.
    destruct Hkill as [Hev | [Hev | [Hev | [Hev | Hev]]]]; try discriminate Hev.
    apply in_app_or in Hev. destruct Hev as [Hev | Hev].
    + apply pollTrace_events in Hev.
      destruct Hev as [Hev | [Hev | [Hev _]]]; discriminate Hev.
    + cbn in Hev. destruct Hev as [Hev | [Hev | []]]; discriminate Hev.
Qed.

End LockClaims.

(** ** Results of TryLockWithKill in any environment *)

Section LockResults.

Context {S : Type}.
Variable handle : forall X : Type, osE X -> S -> X * S.

Lemma createResult_cases (x : option error) :
  createResult x = Acquired \/ exists e, createResult x = (false, Some e).
Proof.
  destruct x as [e |]; [right; eexists; reflexivity | left; reflexivity].
Qed.

Lemma killing_call_result (l : InstanceLock) (s : S) :
  forall r s' tr,
    run handle osLog (TryLockWithKill l true) s = (r, s', tr) ->
    r = Acquired \/ exists e, r = (false, Some e).
Proof.
  intros r s' tr H. apply TryLockWithKill_run in H.
  inversion H; subst;
    try apply createResult_cases;
    try (left; reflexivity);
    try (right; eexists; reflexivity).
  discriminate.
Qed.

(** main, which calls TryLockWithKill(true), never takes the exit with
    status 0 that reports a running instance. *)
Lemma mainAcquire_never_already_running (l : InstanceLock) (s : S) :
  fst (fst (run handle osLog (mainAcquire l) s)) <> Exit 0.
Proof.
  unfold mainAcquire. rewrite run_bind.
  destruct (run handle osLog (TryLockWithKill l true) s) as [[r s1] tr] eqn:H.
  apply killing_call_result in H.
  destruct H as [-> | [e ->]]; cbn; discriminate.
Qed.

End LockResults.

(** C10.  TryLockWithKill(true) never returns Rejected: in every
    environment, whatever the file system and the other processes do, the
    call returns Acquired or an error; and a call with killExisting false
    can return Rejected. *)
Theorem kill_mode_never_rejects :
  (forall (S : Type) (handle : forall X : Type, osE X -> S -> X * S)
          (s : S) (l : InstanceLock),
      let r := fst (fst (run handle osLog (TryLockWithKill l true) s)) in
      r <> Rejected /\ (r = Acquired \/ exists e, r = (false, Some e)))
  /\ (exists o w l, fst (fst (exec o (TryLockWithKill l false) w)) = Rejected).
Proof.
  split.
  - intros S handle s l.
    destruct (run handle osLog (TryLockWithKill l true) s) as [[r s1] tr] eqn:H.
    cbn [fst]. apply killing_call_result in H.
    split; [| exact H].
    destruct H as [-> | [e ->]]; discriminate.
  - exists calm, (holding "/tmp/matlab-mcp-core-server.lock" "7"),
           {| lockFilePath := "/tmp/matlab-mcp-core-server.lock"; pid := 8 |}.
    vm_compute. reflexivity.
Qed.

(** ** Calling twice *)

Section Reacquire.

Variable o : Oracle.

(** After a call that returned Acquired the lock file holds a text that
    reads back as the caller's PID. *)
Lemma acquired_record (w : World) (l : InstanceLock) (killExisting : bool) :
  isInt (pid l) ->
  forall w' tr,
    exec o (TryLockWithKill l killExisting) w = (Acquired, w', tr) ->
    exists content,
      files w' (lockFilePath l) = Some content
      /\ Atoi (TrimSpace content) = Some (pid l).
Proof.
  intros Hint w' tr Hexec.
  pose proof (TryLockWithKill_run (os o) l killExisting w _ w' tr Hexec) as Hrun.
  assert (Hcreated : forall x pre,
             createResult x = Acquired ->
             tr = pre ++ [writeEv l x] ->
             exists content,
               files w' (lockFilePath l) = Some content
               /\ Atoi (TrimSpace content) = Some (pid l)).
  { intros x pre Hx ->. destruct x as [e |]; [discriminate Hx |].
    exists (Itoa (pid l)). split.
    - apply (claimed_file o _ l w _ w' pre Hexec).
    - apply Atoi_TrimSpace_Itoa, Hint. }
  inversion Hrun as
      [e x Htr Hr | e y x Htr Hr | c y x Hp Htr Hr | c Hp Htr Hr
       | c q y x Hp Hq Htr Hr | c q Hp Hq Hk Htr Hr | c q e Hp Hq Hk Htr Hr
       | c q alive seenDead y x Hp Hq Hk Hn Htr Hr].
  - apply (Hcreated x [EvStat (lockFilePath l) (Some e)]); [assumption | rewrite <- Htr; reflexivity].
  - apply (Hcreated x [EvStat (lockFilePath l) None; EvReadFile (lockFilePath l) (inr e); EvRemove (lockFilePath l) y]);
      [assumption | rewrite <- Htr; reflexivity].
  - apply (Hcreated x [EvStat (lockFilePath l) None; EvReadFile (lockFilePath l) (inl c); EvRemove (lockFilePath l) y]);
      [assumption | rewrite <- Htr; reflexivity].
  - exists c. split; [| exact Hp].
    subst tr.
    rewrite (exec_frame o _ w _ w' _ Hexec eq_refl).
    apply (exec_first_read o _ w _ w' [EvStat (lockFilePath l) None] _ _ _ Hexec eq_refl).
  - apply (Hcreated x [EvStat (lockFilePath l) None; EvReadFile (lockFilePath l) (inl c);
                       EvIsProcessRunning q false; EvRemove (lockFilePath l) y]);
      [assumption | rewrite <- Htr; reflexivity].
  - apply (Hcreated x ([EvStat (lockFilePath l) None; EvReadFile (lockFilePath l) (inl c);
                        EvIsProcessRunning q true; EvKillProcess q None]
                       ++ pollTrace q alive seenDead ++ [EvRemove (lockFilePath l) y]));
      [assumption | rewrite <- Htr, <- !app_assoc; reflexivity].
Qed.

(** C7, as the code has it.  When a call from PID p has returned Acquired,
    the lock file holds a text that reads back as p, and the call that the
    same process makes next returns Acquired too, for either value of
    killExisting in either call, provided every write of the lock file that
    the second call attempts succeeds; it attempts none when it reads the
    file back, in which case Stat and ReadFile are all it calls. *)
Theorem reacquire_by_owner
        (w : World) (l : InstanceLock) (kill1 kill2 : bool) :
  isInt (pid l) ->
  forall w1 tr1 r2 w2 tr2,
    exec o (TryLockWithKill l kill1) w = (Acquired, w1, tr1) ->
    exec o (TryLockWithKill l kill2) w1 = (r2, w2, tr2) ->
    writesSucceed tr2 ->
    (exists content,
        files w1 (lockFilePath l) = Some content
        /\ Atoi (TrimSpace content) = Some (pid l))
    /\ r2 = Acquired
    /\ (forall content,
          In (EvReadFile (lockFilePath l) (inl content)) tr2 ->
          tr2 = [EvStat (lockFilePath l) None;
                 EvReadFile (lockFilePath l) (inl content)]).
Proof.
  intros Hint w1 tr1 r2 w2 tr2 Hfirst Hsecond Hwrite.
  destruct (acquired_record w l kill1 Hint w1 tr1 Hfirst) as (c & Hfile & Hparse).
  split; [exists c; split; assumption |].
  pose proof (TryLockWithKill_run (os o) l kill2 w1 r2 w2 tr2 Hsecond) as Hrun.
  assert (Hsame : forall c' post,
             tr2 = EvStat (lockFilePath l) None
                   :: EvReadFile (lockFilePath l) (inl c') :: post ->
             Atoi (TrimSpace c') = Some (pid l)).
  { intros c' post ->.
    pose proof (exec_first_read o _ w1 r2 w2 [EvStat _ None] _ _ _ Hsecond eq_refl)
      as Hread.
    rewrite Hfile in Hread. injection Hread as <-. exact Hparse. }
  assert (Hcreated : forall x, In (writeEv l x) tr2 -> createResult x = Acquired).
  { intros x Hin. apply Hwrite in Hin. subst x. reflexivity. }
  inversion Hrun as
      [e x Htr Hr | e y x Htr Hr | c' y x Hp Htr Hr | c' Hp Htr Hr
       | c' q y x Hp Hq Htr Hr | c' q Hp Hq Hk Htr Hr | c' q e Hp Hq Hk Htr Hr
       | c' q alive seenDead y x Hp Hq Hk Hn Htr Hr].
  - split; [apply Hcreated; subst tr2; cbn; auto |].
    intros c0 Hin. subst tr2. cbn in Hin. intuition discriminate.
  - split; [apply Hcreated; subst tr2; cbn; auto 10 |].
    intros c0 Hin. subst tr2. cbn in Hin. intuition discriminate.
  - rewrite (Hsame c' _ (eq_sym Htr)) in Hp. discriminate Hp.
  - split; [reflexivity |].
    intros c0 Hin. subst tr2. cbn in Hin.
    destruct Hin as [Hin | [Hin | []]]; [discriminate Hin |].
    injection Hin as ->. reflexivity.
  - rewrite (Hsame c' _ (eq_sym Htr)) in Hp. injection Hp as Hp. congruence.
  - rewrite (Hsame c' _ (eq_sym Htr)) in Hp. injection Hp as Hp. congruence.
  - rewrite (Hsame c' _ (eq_sym Htr)) in Hp. injection Hp as Hp. congruence.
  - rewrite (Hsame c' _ (eq_sym Htr)) in Hp. injection Hp as Hp. congruence.
Qed.

End Reacquire.

(** C7, as stated, fails when the file system fails between the two calls:
    process 4242 acquires the absent lock, and its next call, which can
    stat the file but not read it, removes it and fails to write it again. *)
Lemma reacquire_fails_on_io_error :
  let l := {| lockFilePath := tmpLock; pid := 4242 |} in
  let '(r1, w1, _) := exec ioTrouble (TryLockWithKill l false) emptyWorld in
  let '(r2, w2, tr2) := exec ioTrouble (TryLockWithKill l false) w1 in
  r1 = Acquired
  /\ files w1 tmpLock = Some "4242"%string
  /\ tr2 = [EvStat tmpLock None; EvReadFile tmpLock (inr (External 5));
            EvRemove tmpLock None;
            EvWriteFile tmpLock "4242" 420 (Some (External 28))]
  /\ r2 = (false, Some (Wrapf "failed to create lock file: %w" [] (External 28)))
  /\ r2 <> Acquired.
Proof.
  vm_compute. repeat split. discriminate.
Qed.

(** ** Several processes on one lock file *)

Section Schedules.

Context {E : Type -> Type} {S T A : Type}.
Variable handle : forall X : Type, E X -> S -> X * S.
Variable log : forall X : Type, E X -> X -> T.

Lemma runSched_app (sched1 sched2 : list nat) :
  forall (ps : list (prog E A)) s,
    runSched handle log (sched1 ++ sched2) ps s =
    let '(ps1, s1, tr1) := runSched handle log sched1 ps s in
    let '(ps2, s2, tr2) := runSched handle log sched2 ps1 s1 in
    (ps2, s2, tr1 ++ tr2).
Proof.
  induction sched1 as [| i sched1 IH]; intros ps s; cbn [app runSched].
  - destruct (runSched handle log sched2 ps s) as [[ps2 s2] tr2]. reflexivity.
  - destruct (nth_error ps i) as [p |]; [| apply IH].
    destruct (step handle log p s) as [[p1 s1] evs].
    rewrite IH.
    destruct (runSched handle log sched1 (setNth i p1 ps) s1) as [[ps1 s2] tr1].
    destruct (runSched handle log sched2 ps1 s2) as [[ps2 s3] tr2].
    rewrite app_assoc. reflexivity.
Qed.

(** A schedule that names one program only makes that program step. *)
Lemma runSched_first (n : nat) :
  forall (p : prog E A) rest s,
    runSched handle log (repeat O n) (p :: rest) s =
    let '(p1, s1, tr) := steps handle log n p s in
    (p1 :: rest, s1, map (pair O) tr).
Proof.
  induction n as [| n IH]; intros p rest s; cbn [repeat runSched steps].
  - reflexivity.
  - cbn [nth_error]. destruct (step handle log p s) as [[p1 s1] evs].
    cbn [setNth]. rewrite IH.
    destruct (steps handle log n p1 s1) as [[p2 s2] tr].
    rewrite map_app. reflexivity.
Qed.

Lemma runSched_second (n : nat) :
  forall (p0 p : prog E A) rest s,
    runSched handle log (repeat 1%nat n) (p0 :: p :: rest) s =
    let '(p1, s1, tr) := steps handle log n p s in
    (p0 :: p1 :: rest, s1, map (pair 1%nat) tr).
Proof.
  induction n as [| n IH]; intros p0 p rest s; cbn [repeat runSched steps].
  - reflexivity.
  - cbn [nth_error]. destruct (step handle log p s) as [[p1 s1] evs].
    cbn [setNth]. rewrite IH.
    destruct (steps handle log n p1 s1) as [[p2 s2] tr].
    rewrite map_app. reflexivity.
Qed.

End Schedules.

(** C9, as stated, fails: when two processes call TryLock on the absent lock
    file and the calls of the second fall between the Stat and the WriteFile
    of the first, both return Acquired, and both are running. *)
Lemma racing_calls_both_acquire :
  let '(ps, w, tr) :=
    runSched (os calm) osLog [0; 1; 0; 1]%nat
             [TryLockWithKill instanceA false; TryLockWithKill instanceB false]
             emptyWorld in
  ps = [Ret Acquired; Ret Acquired]
  /\ tr = [(0, EvStat tmpLock (Some ENOENT)); (1, EvStat tmpLock (Some ENOENT));
           (0, EvWriteFile tmpLock "101" 420 None);
           (1, EvWriteFile tmpLock "102" 420 None)]%nat
  /\ files w tmpLock = Some "102"%string
  /\ pid instanceA <> pid instanceB
  /\ lockFilePath instanceA = lockFilePath instanceB
  /\ (forall t, running calm t (pid instanceA) = true
                /\ running calm t (pid instanceB) = true).
Proof.
  vm_compute. repeat split; discriminate.
Qed.

Section InTurn.

Variable o : Oracle.

(** When a call by one process has returned Acquired and the next call, by
    another process on the same lock file, returns Acquired as well, the
    second has superseded the first or could not see its record. *)
Lemma second_owner_supersedes (w : World) (a b : InstanceLock) (ka kb : bool) :
  lockFilePath a = lockFilePath b ->
  pid a <> pid b ->
  isInt (pid a) ->
  forall w1 tr1 w2 tr2,
    exec o (TryLockWithKill a ka) w = (Acquired, w1, tr1) ->
    exec o (TryLockWithKill b kb) w1 = (Acquired, w2, tr2) ->
    In (EvIsProcessRunning (pid a) false) tr2
    \/ (kb = true /\ In (EvKillProcess (pid a) None) tr2)
    \/ (exists e, In (EvStat (lockFilePath b) (Some e)) tr2
                  \/ In (EvReadFile (lockFilePath b) (inr e)) tr2).
Proof.
  intros Hpath Hpid Hint w1 tr1 w2 tr2 Hfirst Hsecond.
  destruct (acquired_record o w a ka Hint w1 tr1 Hfirst) as (c & Hfile & Hparse).
  rewrite Hpath in Hfile.
  pose proof (TryLockWithKill_run (os o) b kb w1 _ w2 tr2 Hsecond) as Hrun.
  assert (Hsame : forall c' post,
             tr2 = EvStat (lockFilePath b) None
                   :: EvReadFile (lockFilePath b) (inl c') :: post ->
             Atoi (TrimSpace c') = Some (pid a)).
  { intros c' post ->.
    pose proof (exec_first_read o _ w1 _ w2 [EvStat _ None] _ _ _ Hsecond eq_refl)
      as Hread.
    rewrite Hfile in Hread. injection Hread as <-. exact Hparse. }
  inversion Hrun as
      [e x Htr Hr | e y x Htr Hr | c' y x Hp Htr Hr | c' Hp Htr Hr
       | c' q y x Hp Hq Htr Hr | c' q Hp Hq Hk Htr Hr | c' q e Hp Hq Hk Htr Hr
       | c' q alive seenDead y x Hp Hq Hk Hn Htr Hr].
  - right; right. exists e. left. cbn. auto.
  - right; right. exists e. right. cbn. auto.
  - rewrite (Hsame c' _ (eq_sym Htr)) in Hp. discriminate Hp.
  - rewrite (Hsame c' _ (eq_sym Htr)) in Hp. injection Hp as Hp. contradiction.
  - rewrite (Hsame c' _ (eq_sym Htr)) in Hp. injection Hp as <-.
    left. cbn. auto.
  - rewrite (Hsame c' _ (eq_sym Htr)) in Hp. injection Hp as <-.
    right; left. split; [exact Hk |]. cbn. auto.
Qed.

(** C9, as the code has it.  Two processes with different PIDs call
    TryLockWithKill on the same lock file, and the calls do not overlap: the
    schedule lets the first make all its calls before the second makes any.
    When both return Acquired, the second has superseded the first, which it
    was told is not running, or which it asked to be killed with success
    under killExisting, or it could not stat or read the lock file.  Calls
    that overlap are not covered: both can return Acquired. *)
Theorem calls_in_turn_supersede
        (w : World) (a b : InstanceLock) (ka kb : bool) (n m : nat) :
  lockFilePath a = lockFilePath b ->
  pid a <> pid b ->
  isInt (pid a) ->
  forall w' tr,
    runSched (os o) osLog (repeat 0%nat n ++ repeat 1%nat m)
             [TryLockWithKill a ka; TryLockWithKill b kb] w
    = ([Ret Acquired; Ret Acquired], w', tr) ->
    In (1%nat, EvIsProcessRunning (pid a) false) tr
    \/ (kb = true /\ In (1%nat, EvKillProcess (pid a) None) tr)
    \/ (exists e, In (1%nat, EvStat (lockFilePath b) (Some e)) tr
                  \/ In (1%nat, EvReadFile (lockFilePath b) (inr e)) tr).
Proof.
  intros Hpath Hpid Hint w' tr. rewrite runSched_app, runSched_first.
  destruct (steps (os o) osLog n (TryLockWithKill a ka) w)
    as [[pa w1] tr1] eqn:Ha.
  rewrite runSched_second.
  destruct (steps (os o) osLog m (TryLockWithKill b kb) w1)
    as [[pb w2] tr2] eqn:Hb.
  intros H. injection H as -> -> _ <-.
  apply steps_run in Ha, Hb.
  assert (Hlift : forall ev, In ev tr2 ->
                    In (1%nat, ev) (map (pair 0%nat) tr1 ++ map (pair 1%nat) tr2)).
  { intros ev Hin. apply in_or_app. right.
    apply (in_map (pair 1%nat)), Hin. }
  destruct (second_owner_supersedes w a b ka kb Hpath Hpid Hint w1 tr1 w2 tr2 Ha Hb)
    as [Hdead | [[Hk Hkill] | [e [Hstat | Hread]]]].
  - left. apply Hlift, Hdead.
  - right; left. split; [exact Hk | apply Hlift, Hkill].
  - right; right. exists e. left. apply Hlift, Hstat.
  - right; right. exists e. right. apply Hlift, Hread.
Qed.

End InTurn.

(** ** The client factory *)

Import httpclientfactory.

Section ClientFactory.

Variable ParseCertificate : list byte -> Certificate + error.
Variable pemCertificates : list byte -> list Certificate.

(** Any environment whatever: the clock, the verifier and the cookie jar
    answer as they like. *)
Context {S : Type}.
Variable handle : forall X : Type, tlsE X -> S -> X * S.

(** The coarse check passes exactly when no certificate lies outside the
    tolerance. *)
Lemma checkSkew_rejects (certs : list Certificate) (earliestValid latestValid : Time) :
  (exists cert,
      In cert certs
      /\ (latestValid < NotBefore cert \/ NotAfter cert < earliestValid)) ->
  exists e, checkSkew certs earliestValid latestValid = Some e.
Proof.
  induction certs as [| cert rest IH]; intros (bad & Hin & Hbad).
  - destruct Hin.
  - cbn [checkSkew]. unfold After, Before.
    destruct (latestValid <? NotBefore cert) eqn:Hnb; [eexists; reflexivity |].
    destruct (NotAfter cert <? earliestValid) eqn:Hna; [eexists; reflexivity |].
    apply Z.ltb_ge in Hnb, Hna.
    destruct Hin as [<- | Hin]; [lia |].
    apply IH. exists bad. auto.
Qed.

Lemma checkSkew_passes (certs : list Certificate) (earliestValid latestValid : Time) :
  checkSkew certs earliestValid latestValid = None ->
  forall cert,
    In cert certs ->
    NotBefore cert <= latestValid /\ earliestValid <= NotAfter cert.
Proof.
  induction certs as [| c rest IH]; intros Hpass cert Hin; [destruct Hin |].
  cbn [checkSkew] in Hpass. unfold After, Before in Hpass.
  destruct (latestValid <? NotBefore c) eqn:Hnb; [discriminate Hpass |].
  destruct (NotAfter c <? earliestValid) eqn:Hna; [discriminate Hpass |].
  apply Z.ltb_ge in Hnb, Hna.
  destruct Hin as [<- | Hin]; [lia | apply IH; assumption].
Qed.

(** C3.  For every chain that parses and is not empty, and the time [now]
    the callback reads: when some certificate of the chain has NotBefore
    later than now + 24h or NotAfter earlier than now - 24h, the callback
    returns an error and reading the clock is all it does; Verify is not
    called. *)
Theorem skewed_chain_is_rejected_unverified
        (caCertPool : CertPool) (rawCerts : list (list byte))
        (verifiedChains : list (list Certificate))
        (certs : list Certificate) (now : Time) (s : S) :
  forall r s' tr,
    run handle tlsLog
        (verifyPeerCertificate ParseCertificate caCertPool rawCerts verifiedChains) s
    = (r, s', tr) ->
    parseChain ParseCertificate rawCerts [] = inl certs ->
    certs <> [] ->
    In (EvNow now) tr ->
    (exists cert,
        In cert certs
        /\ (now + 24 * Hour < NotBefore cert
            \/ NotAfter cert < now - 24 * Hour)) ->
    (exists e, r = Some e)
    /\ tr = [EvNow now]
    /\ forallb (fun ev => negb (isVerify ev)) tr = true.
Proof.
  intros r s' tr Hrun Hparse Hne Hnow Hbad.
  unfold verifyPeerCertificate in Hrun. rewrite Hparse in Hrun.
  destruct certs as [| cert0 rest]; [contradiction |].
  rewrite run_call_bind in Hrun.
  destruct (handle _ Now s) as [now' s1].
  destruct (checkSkew (cert0 :: rest) (Add now' (- clockSkewTolerance))
                      (Add now' clockSkewTolerance)) as [e |] eqn:Hskew.
  - cbn [run] in Hrun. injection Hrun as <- _ <-.
    cbn in Hnow. destruct Hnow as [Hnow | []]. injection Hnow as ->.
    split; [exists e; reflexivity |]. split; reflexivity.
  - exfalso.
    assert (Hsame : now' = now).
    { rewrite run_call_bind in Hrun.
      destruct (handle _ (Verify _ _) s1) as [[e1 |] s2].
      2: { cbn [run] in Hrun. injection Hrun as _ _ <-. cbn in Hnow.
           destruct Hnow as [Hnow | [Hnow | []]];
             [injection Hnow as ->; reflexivity | discriminate Hnow]. }
      cbn [verifyAt] in Hrun. rewrite run_call_bind in Hrun.
      destruct (handle _ (Verify _ _) s2) as [[e2 |] s3].
      2: { cbn [run] in Hrun. injection Hrun as _ _ <-. cbn in Hnow.
           destruct Hnow as [Hnow | [Hnow | [Hnow | []]]];
             [injection Hnow as ->; reflexivity | discriminate Hnow ..]. }
      rewrite run_call_bind in Hrun.
      destruct (handle _ (Verify _ _) s3) as [[e3 |] s4];
        cbn [run] in Hrun; injection Hrun as _ _ <-; cbn in Hnow;
        destruct Hnow as [Hnow | [Hnow | [Hnow | [Hnow | []]]]];
        solve [injection Hnow as ->; reflexivity | discriminate Hnow]. }
    subst now'.
    destruct Hbad as (bad & Hin & Hout).
    pose proof (checkSkew_passes _ _ _ Hskew bad Hin) as Hok.
    unfold Add, clockSkewTolerance in Hok. lia.
Qed.

(** C2.  Once the coarse check has passed, the chain is verified against the
    pinned pool at most three times, the reference times being now,
    now + 24h and now - 24h in this order; the callback returns nil at the
    first attempt that succeeds, and when all three fail it returns an error
    that wraps the error of the last attempt, the one at now - 24h. *)
Theorem verification_tries_three_times
        (caCertPool : CertPool) (rawCerts : list (list byte))
        (verifiedChains : list (list Certificate))
        (certs : list Certificate) (now : Time) (s : S) :
  forall r s' tr,
    run handle tlsLog
        (verifyPeerCertificate ParseCertificate caCertPool rawCerts verifiedChains) s
    = (r, s', tr) ->
    parseChain ParseCertificate rawCerts [] = inl certs ->
    In (EvNow now) tr ->
    checkSkew certs (now - 24 * Hour) (now + 24 * Hour) = None ->
    exists cert0 rest,
      certs = cert0 :: rest
      /\ let atNow := {| Roots := caCertPool; CurrentTime := None |} in
         let later := {| Roots := caCertPool; CurrentTime := Some (now + 24 * Hour) |} in
         let earlier := {| Roots := caCertPool; CurrentTime := Some (now - 24 * Hour) |} in
         map (referenceTime now) [atNow; later; earlier]
         = [now; now + 24 * Hour; now - 24 * Hour]
         /\ ((tr = [EvNow now; EvVerify cert0 atNow None] /\ r = None)
             \/ (exists e1,
                    tr = [EvNow now; EvVerify cert0 atNow (Some e1);
                          EvVerify cert0 later None]
                    /\ r = None)
             \/ (exists e1 e2,
                    tr = [EvNow now; EvVerify cert0 atNow (Some e1);
                          EvVerify cert0 later (Some e2);
                          EvVerify cert0 earlier None]
                    /\ r = None)
             \/ (exists e1 e2 e3,
                    tr = [EvNow now; EvVerify cert0 atNow (Some e1);
                          EvVerify cert0 later (Some e2);
                          EvVerify cert0 earlier (Some e3)]
                    /\ r = Some (Wrapf "certificate verification failed: %w" [] e3))).
Proof.
  intros r s' tr Hrun Hparse Hnow Hskew.
  unfold verifyPeerCertificate in Hrun. rewrite Hparse in Hrun.
  destruct certs as [| cert0 rest].
  { cbn [run] in Hrun. injection Hrun as _ _ <-. destruct Hnow. }
  exists cert0, rest. split; [reflexivity |].
  split; [reflexivity |].
  rewrite run_call_bind in Hrun.
  destruct (handle _ Now s) as [now' s1].
  assert (Hsame : now' = now).
  { destruct (checkSkew (cert0 :: rest) (Add now' (- clockSkewTolerance))
                        (Add now' clockSkewTolerance)) as [e |].
    { cbn [run] in Hrun. injection Hrun as _ _ <-.
      cbn in Hnow. destruct Hnow as [Hnow | []]. injection Hnow as ->.
      reflexivity. }
    rewrite run_call_bind in Hrun.
    destruct (handle _ (Verify _ _) s1) as [[e1 |] s2].
    2: { cbn [run] in Hrun. injection Hrun as _ _ <-. cbn in Hnow.
         destruct Hnow as [Hnow | [Hnow | []]];
           [injection Hnow as ->; reflexivity | discriminate Hnow]. }
    cbn [verifyAt] in Hrun. rewrite run_call_bind in Hrun.
    destruct (handle _ (Verify _ _) s2) as [[e2 |] s3].
    2: { cbn [run] in Hrun. injection Hrun as _ _ <-. cbn in Hnow.
         destruct Hnow as [Hnow | [Hnow | [Hnow | []]]];
           [injection Hnow as ->; reflexivity | discriminate Hnow ..]. }
    rewrite run_call_bind in Hrun.
    destruct (handle _ (Verify _ _) s3) as [[e3 |] s4];
      cbn [run] in Hrun; injection Hrun as _ _ <-; cbn in Hnow;
      destruct Hnow as [Hnow | [Hnow | [Hnow | [Hnow | []]]]];
      solve [injection Hnow as ->; reflexivity | discriminate Hnow]. }
  subst now'.
  change (Add now (- clockSkewTolerance)) with (now - 24 * Hour) in Hrun.
  change (Add now clockSkewTolerance) with (now + 24 * Hour) in Hrun.
  rewrite Hskew in Hrun.
  rewrite run_call_bind in Hrun.
  destruct (handle _ (Verify _ _) s1) as [[e1 |] s2].
  2: { cbn [run] in Hrun. injection Hrun as <- _ <-. left. split; reflexivity. }
  cbn [verifyAt] in Hrun. rewrite run_call_bind in Hrun.
  destruct (handle _ (Verify _ _) s2) as [[e2 |] s3].
  2: { cbn [run] in Hrun. injection Hrun as <- _ <-.
       right; left. exists e1. split; reflexivity. }
  rewrite run_call_bind in Hrun.
  destruct (handle _ (Verify _ _) s3) as [[e3 |] s4];
    cbn [run] in Hrun; injection Hrun as <- _ <-.
  - right; right; right. exists e1, e2, e3. split; reflexivity.
  - right; right; left. exists e1, e2. split; reflexivity.
Qed.

(** The client and the error are never both nil and never both set. *)
Lemma client_xor_error (certificatePEM : list byte) (s : S) :
  let r := fst (fst (run handle tlsLog
                         (NewClientForSelfSignedTLSServer
                            ParseCertificate pemCertificates certificatePEM) s)) in
  (fst r = None /\ snd r <> None) \/ (fst r <> None /\ snd r = None).
Proof.
  unfold NewClientForSelfSignedTLSServer, AppendCertsFromPEM.
  destruct (pemCertificates certificatePEM) as [| c cs]; cbn [negb].
  - left. split; [reflexivity | discriminate].
  - rewrite run_call_bind.
    destruct (handle _ CookiejarNew s) as [[jar | err] s1]; cbn.
    + right. split; [discriminate | reflexivity].
    + left. split; [reflexivity | discriminate].
Qed.

(** C8.  For every input from which no PEM certificate can be decoded,
    NewClientForSelfSignedTLSServer returns the error and a nil client, and
    it does so at once: no cookie jar is asked for and nothing is verified,
    the environment is not touched. *)
Theorem invalid_pem_builds_no_client (certificatePEM : list byte) (s : S) :
  pemCertificates certificatePEM = [] ->
  forall r s' tr,
    run handle tlsLog
        (NewClientForSelfSignedTLSServer
           ParseCertificate pemCertificates certificatePEM) s
    = (r, s', tr) ->
    r = (None, Some (Errorf "failed to append certificate to pool" []))
    /\ fst r = None /\ snd r <> None
    /\ tr = [] /\ s' = s.
Proof.
  intros Hpem r s' tr.
  unfold NewClientForSelfSignedTLSServer, AppendCertsFromPEM.
  rewrite Hpem. cbn [negb run].
  intros H; injection H as <- <- <-.
  repeat split. discriminate.
Qed.

End ClientFactory.

(** ** Scenarios of the design document *)

(** Lock file absent: acquired, and the file holds the caller's PID. *)
Example absent_lock_is_acquired :
  let res := exec calm (TryLock instanceA) emptyWorld in
  fst (fst res) = Acquired
  /\ files (snd (fst res)) tmpLock = Some "101"%string
  /\ snd res = [EvStat tmpLock (Some ENOENT); EvWriteFile tmpLock "101" 420 None].
Proof. vm_compute. repeat split. Qed.

(** A running competing PID that exits within 300ms of the kill request: it
    is found gone at the fourth check. *)
Example killed_owner_exits :
  let res := exec (exitsAtCall 10) (TryLockWithKill instanceB true)
                  (holding tmpLock "101") in
  fst (fst res) = Acquired
  /\ files (snd (fst res)) tmpLock = Some "102"%string
  /\ snd res = [EvStat tmpLock None; EvReadFile tmpLock (inl "101"%string);
                EvIsProcessRunning 101 true; EvKillProcess 101 None]
               ++ pollTrace 101 3 true
               ++ [EvRemove tmpLock None; EvWriteFile tmpLock "102" 420 None].
Proof. vm_compute. repeat split. Qed.

(** A record that is not a number is replaced. *)
Example corrupt_record_is_replaced :
  let res := exec calm (TryLock instanceA) (holding tmpLock "not a pid") in
  fst (fst res) = Acquired
  /\ files (snd (fst res)) tmpLock = Some "101"%string.
Proof. vm_compute. repeat split. Qed.

(** White space around the PID is ignored when the record is read. *)
Example own_record_with_newline :
  let res := exec calm (TryLock instanceA)
                  (holding tmpLock (String (ascii_of_N 32)
                                      ("101" ++ String (ascii_of_N 10) ""))) in
  fst (fst res) = Acquired
  /\ snd res = [EvStat tmpLock None;
                EvReadFile tmpLock
                  (inl (String (ascii_of_N 32) ("101" ++ String (ascii_of_N 10) "")))].
Proof. vm_compute. repeat split. Qed.

(** Calls in turn, the second with killExisting: the first owner is asked to
    be killed, is still running after the ten checks, and the second
    acquires the lock all the same. *)
Example superseded_owner_may_survive :
  let '(ps, w, tr) :=
    runSched (os calm) osLog (repeat 0 2 ++ repeat 1 26)%nat
             [TryLockWithKill instanceA false; TryLockWithKill instanceB true]
             emptyWorld in
  ps = [Ret Acquired; Ret Acquired]
  /\ In (1%nat, EvKillProcess 101 None) tr
  /\ livenessChecks 101 (map snd tr) = 11%nat
  /\ forall t, running calm t 101 = true.
Proof. vm_compute. repeat split. auto 10. Qed.

(** Calls in turn, the second unable to stat the lock file: it takes the
    file for absent and overwrites the record of the running first owner. *)
Example unseen_record_is_overwritten :
  let '(ps, w, tr) :=
    runSched (os statTrouble) osLog (repeat 0 2 ++ repeat 1 2)%nat
             [TryLockWithKill instanceA false; TryLockWithKill instanceB false]
             emptyWorld in
  ps = [Ret Acquired; Ret Acquired]
  /\ tr = [(0, EvStat tmpLock (Some ENOENT));
           (0, EvWriteFile tmpLock "101" 420 None);
           (1, EvStat tmpLock (Some (External 13)));
           (1, EvWriteFile tmpLock "102" 420 None)]%nat
  /\ files w tmpLock = Some "102"%string.
Proof. vm_compute. repeat split. Qed.

(** ** The properties at concrete inputs *)

(** The scenario of the design document: the lock file holds the dead PID
    99999. *)
Lemma dead_owner_lock_is_acquired_witness :
  let l := {| lockFilePath := tmpLock; pid := 4242 |} in
  let res := exec noneRunning (TryLockWithKill l false) (holding tmpLock "99999") in
  Atoi (TrimSpace "99999") = Some 99999
  /\ fst (fst res) = Acquired
  /\ files (snd (fst res)) tmpLock = Some "4242"%string.
Proof.
  intros l res. split; [reflexivity |].
  apply (dead_owner_lock_is_acquired
           noneRunning (holding tmpLock "99999") l false "99999" 99999
           (fst (fst res)) (snd (fst res)) (snd res)).
  - reflexivity.
  - reflexivity.
  - reflexivity.
  - vm_compute. auto 10.
  - intros name data perm err H. vm_compute in H.
    repeat (destruct H as [H | H]; [try discriminate H |]); [| destruct H].
    injection H as _ _ _ <-. reflexivity.
Defined.

Lemma live_owner_rejects_without_effect_witness :
  let res := exec calm (TryLockWithKill instanceB false) (holding tmpLock "101") in
  fst (fst res) = Rejected
  /\ snd res = [EvStat tmpLock None; EvReadFile tmpLock (inl "101"%string);
                EvIsProcessRunning 101 true]
  /\ files (snd (fst res)) = files (holding tmpLock "101").
Proof.
  intros res.
  apply (live_owner_rejects_without_effect
           calm (holding tmpLock "101") instanceB "101" 101
           (fst (fst res)) (snd (fst res)) (snd res)).
  - reflexivity.
  - reflexivity.
  - reflexivity.
  - vm_compute. discriminate.
  - vm_compute. auto.
Defined.

(** The competing process 101 survives the kill request: ten checks, then
    the lock is claimed all the same. *)
Lemma kill_then_bounded_wait_then_claim_witness :
  let res := exec calm (TryLockWithKill instanceB true) (holding tmpLock "101") in
  exists content alive seenDead y x,
    snd res = [EvStat tmpLock None; EvReadFile tmpLock (inl content);
               EvIsProcessRunning 101 true; EvKillProcess 101 None]
              ++ pollTrace 101 alive seenDead
              ++ [EvRemove tmpLock y; writeEv instanceB x]
    /\ (if seenDead then alive < 10 else alive = 10)%nat
    /\ (livenessChecks 101 (pollTrace 101 alive seenDead) <= 10)%nat
    /\ fst (fst res) = createResult x
    /\ (x = None ->
        fst (fst res) = Acquired
        /\ files (snd (fst res)) tmpLock = Some (Itoa 102)).
Proof.
  intros res.
  apply (kill_then_bounded_wait_then_claim
           calm (holding tmpLock "101") instanceB 101
           (fst (fst res)) (snd (fst res)) (snd res)).
  - reflexivity.
  - vm_compute. auto 10.
Defined.

Lemma failed_kill_is_reported_witness :
  let res := exec killDenied (TryLockWithKill instanceB true) (holding tmpLock "101") in
  fst (fst res)
  = (false,
     Some (Wrapf "failed to kill existing instance (PID %d): %w" [101] (External 1)))
  /\ files (snd (fst res)) tmpLock = Some "101"%string.
Proof.
  intros res.
  destruct (failed_kill_is_reported
              killDenied (holding tmpLock "101") instanceB true 101 (External 1)
              (fst (fst res)) (snd (fst res)) (snd res))
    as (_ & Hr & _ & _ & Hfiles).
  - reflexivity.
  - vm_compute. auto 10.
  - split; [exact Hr |]. rewrite Hfiles. reflexivity.
Defined.

Lemma reacquire_by_owner_witness :
  let first := exec calm (TryLockWithKill instanceA false) emptyWorld in
  let second := exec calm (TryLockWithKill instanceA true) (snd (fst first)) in
  fst (fst first) = Acquired /\ fst (fst second) = Acquired.
Proof.
  intros first second. split; [reflexivity |].
  apply (reacquire_by_owner
           calm emptyWorld instanceA false true
           ltac:(vm_compute; split; discriminate)
           (snd (fst first)) (snd first)
           (fst (fst second)) (snd (fst second)) (snd second)).
  - reflexivity.
  - reflexivity.
  - intros name data perm err H. vm_compute in H.
    repeat (destruct H as [H | H]; [try discriminate H |]). destruct H.
Defined.

(** Process 101 acquires the lock and exits; process 102 then finds the
    record of a process that is not running. *)
Lemma calls_in_turn_supersede_witness :
  In (1%nat, EvIsProcessRunning 101 false)
     (snd (runSched (os noneRunning) osLog (repeat 0%nat 2 ++ repeat 1%nat 5)
                    [TryLockWithKill instanceA false; TryLockWithKill instanceB false]
                    emptyWorld))
  \/ (false = true
      /\ In (1%nat, EvKillProcess 101 None)
            (snd (runSched (os noneRunning) osLog (repeat 0%nat 2 ++ repeat 1%nat 5)
                           [TryLockWithKill instanceA false;
                            TryLockWithKill instanceB false]
                           emptyWorld)))
  \/ (exists e,
         In (1%nat, EvStat tmpLock (Some e))
            (snd (runSched (os noneRunning) osLog (repeat 0%nat 2 ++ repeat 1%nat 5)
                           [TryLockWithKill instanceA false;
                            TryLockWithKill instanceB false]
                           emptyWorld))
         \/ In (1%nat, EvReadFile tmpLock (inr e))
               (snd (runSched (os noneRunning) osLog (repeat 0%nat 2 ++ repeat 1%nat 5)
                              [TryLockWithKill instanceA false;
                               TryLockWithKill instanceB false]
                              emptyWorld))).
Proof.
  apply (calls_in_turn_supersede
           noneRunning emptyWorld instanceA instanceB false false 2 5
           eq_refl
           ltac:(vm_compute; discriminate)
           ltac:(vm_compute; split; discriminate)
           (snd (fst (runSched (os noneRunning) osLog
                               (repeat 0%nat 2 ++ repeat 1%nat 5)
                               [TryLockWithKill instanceA false;
                                TryLockWithKill instanceB false]
                               emptyWorld)))).
  reflexivity.
Defined.

(** A certificate that expired more than a day ago is turned down without
    asking the verifier; the handshake is at day 400. *)
Lemma skewed_chain_is_rejected_unverified_witness :
  let res := run (fixedEnv (400 * Day) unrelated) tlsLog
                 (verifyPeerCertificate sampleParse [sampleCert] sampleChain []) tt in
  (exists e, fst (fst res) = Some e)
  /\ snd res = [EvNow (400 * Day)]
  /\ forallb (fun ev => negb (isVerify ev)) (snd res) = true.
Proof.
  intros res.
  apply (skewed_chain_is_rejected_unverified
           sampleParse (fixedEnv (400 * Day) unrelated)
           [sampleCert] sampleChain [] [sampleCert] (400 * Day) tt
           (fst (fst res)) (snd (fst res)) (snd res)).
  - reflexivity.
  - reflexivity.
  - discriminate.
  - vm_compute. auto.
  - exists sampleCert. split; [left; reflexivity |].
    right. vm_compute. reflexivity.
Defined.

(** A chain signed by an unrelated authority fails at all three reference
    times; the error of the third attempt is the one reported. *)
Lemma verification_tries_three_times_witness :
  let res := run (fixedEnv (100 * Day) unrelated) tlsLog
                 (verifyPeerCertificate sampleParse [sampleCert] sampleChain []) tt in
  fst (fst res)
  = Some (Wrapf "certificate verification failed: %w" [] (External 11))
  /\ List.length (filter isVerify (snd res)) = 3%nat.
Proof.
  intros res.
  destruct (verification_tries_three_times
              sampleParse (fixedEnv (100 * Day) unrelated)
              [sampleCert] sampleChain [] [sampleCert] (100 * Day) tt
              (fst (fst res)) (snd (fst res)) (snd res))
    as (cert0 & rest & _ & _ & Hcases).
  - reflexivity.
  - reflexivity.
  - vm_compute. auto.
  - reflexivity.
  - split; reflexivity.
Defined.

Lemma invalid_pem_builds_no_client_witness :
  let res := run (fixedEnv 0 unrelated) tlsLog
                 (NewClientForSelfSignedTLSServer sampleParse samplePem [x2d; x2d]) tt in
  fst (fst res) = (None, Some (Errorf "failed to append certificate to pool" []))
  /\ snd res = [].
Proof.
  intros res.
  destruct (invalid_pem_builds_no_client
              sampleParse samplePem (fixedEnv 0 unrelated) [x2d; x2d] tt
              eq_refl (fst (fst res)) (snd (fst res)) (snd res) eq_refl)
    as (Hr & _ & _ & Htr & _).
  split; assumption.
Defined.

(** * Further properties of the instance lock *)

Import lockmeasure.

Section Measures.

Lemma count_app (f : osEvent -> bool) (a b : list osEvent) :
  count f (a ++ b) = (count f a + count f b)%nat.
Proof. unfold count. rewrite filter_app, length_app. reflexivity. Qed.

Lemma sleepTotal_app (a b : list osEvent) :
  sleepTotal (a ++ b) = sleepTotal a + sleepTotal b.
Proof.
  induction a as [| ev a IH]; [reflexivity |].
  destruct ev; cbn [app sleepTotal]; rewrite IH; lia.
Qed.

Lemma pollTrace_measures (P : Z) (alive : nat) (seenDead : bool) :
  List.length (pollTrace P alive seenDead)
  = (2 * alive + if seenDead then 1 else 0)%nat
  /\ sleepTotal (pollTrace P alive seenDead)
     = Z.of_nat alive * (100 * Millisecond)
  /\ count isLiveness (pollTrace P alive seenDead)
     = (alive + if seenDead then 1 else 0)%nat
  /\ count isKill (pollTrace P alive seenDead) = 0%nat
  /\ count isWrite (pollTrace P alive seenDead) = 0%nat.
Proof.
  unfold pollTrace. induction alive as [| alive IH].
  - destruct seenDead; repeat split.
  - destruct IH as (Hlen & Hsleep & Hlive & Hkill & Hwrite).
    cbn [repeat List.concat app].
    repeat split.
    + cbn [List.length]. rewrite Hlen. lia.
    + cbn [sleepTotal]. rewrite Hsleep. lia.
    + unfold count in *. cbn [filter isLiveness List.length]. rewrite Hlive. lia.
    + unfold count in *. cbn [filter isKill]. exact Hkill.
    + unfold count in *. cbn [filter isWrite]. exact Hwrite.
Qed.


End Measures.

Section LockInAnyEnvironment.

Context {S : Type}.
Variable handle : forall X : Type, osE X -> S -> X * S.


(** X2.  A call does a bounded amount of work: at most 26 calls in all, at
    most 11 liveness checks, at most one kill request, at most one write,
    and at most one second of sleep; without killExisting it never sleeps
    and never asks for a kill. *)
Theorem call_is_bounded (l : InstanceLock) (killExisting : bool) (s : S) :
  let tr := snd (run handle osLog (TryLockWithKill l killExisting) s) in
  (List.length tr <= 26)%nat
  /\ (count isLiveness tr <= 11)%nat
  /\ (count isKill tr <= 1)%nat
  /\ (count isWrite tr <= 1)%nat
  /\ 0 <= sleepTotal tr <= 1000 * Millisecond
  /\ (killExisting = false ->
      sleepTotal tr = 0 /\ count isKill tr = 0%nat
      /\ (count isLiveness tr <= 1)%nat).
Proof.
  destruct (run handle osLog (TryLockWithKill l killExisting) s)
    as [[r s'] tr] eqn:Hrun.
  cbn [snd]. apply TryLockWithKill_run in Hrun.
  inversion Hrun; subst;
    try solve [cbn; unfold Millisecond; repeat split; intros; lia].
  destruct (pollTrace_measures existingPID alive seenDead)
    as (Hlen & Hsleep & Hlive & Hkill & Hwrite).
  assert (Halive : (alive <= 10)%nat) by (destruct seenDead; lia).
  rewrite !count_app, !sleepTotal_app, !length_app, Hlen, Hsleep, Hlive,
    Hkill, Hwrite.
  cbn. unfold Millisecond.
  repeat split; try (destruct seenDead; lia).
  all: intros; discriminate.
Qed.

End LockInAnyEnvironment.

Section LockOnTheModel.

Variable o : Oracle.



(** Stat of a file that does not exist fails with ENOENT. *)
Lemma exec_first_stat {A : Type} (p : prog osE A) :
  forall w a w' name r post,
    exec o p w = (a, w', EvStat name r :: post) ->
    files w name = None ->
    r = Some ENOENT.
Proof.
  intros w a w' name r post. unfold exec.
  destruct p as [b | X e k]; cbn [run]; [discriminate |].
  destruct (os o X e w) as [x w1] eqn:Hos.
  destruct (run (os o) osLog (k x) w1) as [[b w2] tr1].
  intros H; injection H as _ _ Hev _. intros Hfile.
  destruct e; cbn [osLog] in Hev; try discriminate Hev.
  injection Hev as -> ->. cbn [os] in Hos. rewrite Hfile in Hos.
  injection Hos as <- _. reflexivity.
Qed.


(** X3.  Whenever TryLockWithKill returns Acquired, the lock file holds a
    text that TrimSpace and Atoi read back as the caller's PID.  Either the
    call found the caller's own record, wrote nothing and left every file as
    it was, or its last call was the successful write of the PID in decimal,
    which is then the content of the lock file. *)
Theorem acquired_lock_records_caller
        (w : World) (l : InstanceLock) (killExisting : bool) :
  isInt (pid l) ->
  forall w' tr,
    exec o (TryLockWithKill l killExisting) w = (Acquired, w', tr) ->
    (exists content,
        files w' (lockFilePath l) = Some content
        /\ Atoi (TrimSpace content) = Some (pid l))
    /\ ((count isWrite tr = 0%nat /\ files w' = files w)
        \/ (exists pre,
               tr = pre ++ [writeEv l None]
               /\ files w' (lockFilePath l) = Some (Itoa (pid l)))).
Proof.
  intros Hint w' tr Hexec.
  split; [exact (acquired_record o w l killExisting Hint w' tr Hexec) |].
  pose proof (TryLockWithKill_run (os o) l killExisting w _ w' tr Hexec) as Hrun.
  assert (Hwritten : forall x pre,
             createResult x = Acquired ->
             tr = pre ++ [writeEv l x] ->
             exists pre,
               tr = pre ++ [writeEv l None]
               /\ files w' (lockFilePath l) = Some (Itoa (pid l))).
  { intros x pre Hx ->. destruct x as [e |]; [discriminate Hx |].
    exists pre. split; [reflexivity |].
    apply (claimed_file o _ l w _ w' pre Hexec). }
  inversion Hrun as
      [e x Htr Hr | e y x Htr Hr | c y x Hp Htr Hr | c Hp Htr Hr
       | c q y x Hp Hq Htr Hr | c q Hp Hq Hk Htr Hr | c q e Hp Hq Hk Htr Hr
       | c q alive seenDead y x Hp Hq Hk Hn Htr Hr].
  - right. rewrite Htr. apply (Hwritten x [EvStat (lockFilePath l) (Some e)] Hr).
    rewrite <- Htr. reflexivity.
  - right. rewrite Htr. apply (Hwritten x [EvStat (lockFilePath l) None;
                              EvReadFile (lockFilePath l) (inr e);
                              EvRemove (lockFilePath l) y] Hr).
    rewrite <- Htr. reflexivity.
  - right. rewrite Htr. apply (Hwritten x [EvStat (lockFilePath l) None;
                              EvReadFile (lockFilePath l) (inl c);
                              EvRemove (lockFilePath l) y] Hr).
    rewrite <- Htr. reflexivity.
  - left. subst tr. split; [reflexivity |].
    apply (exec_frame o _ w _ w' _ Hexec). reflexivity.
  - right. rewrite Htr. apply (Hwritten x [EvStat (lockFilePath l) None;
                              EvReadFile (lockFilePath l) (inl c);
                              EvIsProcessRunning q false;
                              EvRemove (lockFilePath l) y] Hr).
    rewrite <- Htr. reflexivity.
  - right. rewrite Htr. apply (Hwritten x ([EvStat (lockFilePath l) None;
                               EvReadFile (lockFilePath l) (inl c);
                               EvIsProcessRunning q true;
                               EvKillProcess q None]
                              ++ pollTrace q alive seenDead
                              ++ [EvRemove (lockFilePath l) y]) Hr).
    rewrite <- Htr, <- !app_assoc. reflexivity.
Qed.

(** X4.  TryLockWithKill returns Rejected only when killExisting is false
    and the lock file records a PID other than the caller's that was
    reported running; the call has then made three calls, Stat, ReadFile and
    the liveness check, and every file is as it was. *)
Theorem rejected_means_running_owner
        (w : World) (l : InstanceLock) (killExisting : bool) :
  forall w' tr,
    exec o (TryLockWithKill l killExisting) w = (Rejected, w', tr) ->
    killExisting = false
    /\ (exists content P,
           files w (lockFilePath l) = Some content
           /\ Atoi (TrimSpace content) = Some P
           /\ P <> pid l
           /\ tr = [EvStat (lockFilePath l) None;
                    EvReadFile (lockFilePath l) (inl content);
                    EvIsProcessRunning P true])
    /\ files w' = files w.
Proof.
  intros w' tr Hexec.
  pose proof (TryLockWithKill_run (os o) l killExisting w _ w' tr Hexec) as Hrun.
  assert (Hcreate : forall x, createResult x <> Rejected)
    by (intros [e |]; discriminate).
  inversion Hrun as
      [e x Htr Hr | e y x Htr Hr | c y x Hp Htr Hr | c Hp Htr Hr
       | c q y x Hp Hq Htr Hr | c q Hp Hq Hk Htr Hr | c q e Hp Hq Hk Htr Hr
       | c q alive seenDead y x Hp Hq Hk Hn Htr Hr];
    try solve [exfalso; apply (Hcreate _ Hr)].
  subst tr. split; [exact Hk |]. split.
  - exists c, q. repeat split; try assumption.
    apply (exec_first_read o _ w _ w' [EvStat _ None] _ _ _ Hexec eq_refl).
  - apply (exec_frame o _ w _ w' _ Hexec). reflexivity.
Qed.

(** X5.  TryLockWithKill asks for a process to be killed at most once, only
    with killExisting, and only for the PID that the lock file records when
    that PID is not the caller's own and has just been reported running. *)
Theorem kill_request_is_for_recorded_running_owner
        (w : World) (l : InstanceLock) (killExisting : bool)
        (P : Z) (e : option error) :
  forall r w' tr,
    exec o (TryLockWithKill l killExisting) w = (r, w', tr) ->
    In (EvKillProcess P e) tr ->
    killExisting = true
    /\ P <> pid l
    /\ count isKill tr = 1%nat
    /\ exists content post,
         files w (lockFilePath l) = Some content
         /\ Atoi (TrimSpace content) = Some P
         /\ tr = [EvStat (lockFilePath l) None;
                  EvReadFile (lockFilePath l) (inl content);
                  EvIsProcessRunning P true;
                  EvKillProcess P e] ++ post.
Proof.
  intros r w' tr Hexec Hkill.
  pose proof (TryLockWithKill_run (os o) l killExisting w r w' tr Hexec) as Hrun.
  inversion Hrun as
      [e0 x Htr Hr | e0 y x Htr Hr | c y x Hp Htr Hr | c Hp Htr Hr
       | c q y x Hp Hq Htr Hr | c q Hp Hq Hk Htr Hr | c q e0 Hp Hq Hk Htr Hr
       | c q alive seenDead y x Hp Hq Hk Hn Htr Hr];
    subst tr; try solve [cbn in Hkill; intuition discriminate].
  - cbn in Hkill.
    destruct Hkill as [Hev | [Hev | [Hev | [Hev | []]]]]; try discriminate Hev.
    injection Hev as -> <-.
    repeat split; try assumption.
    exists c, []. repeat split; try assumption.
    apply (exec_first_read o _ w _ w' [EvStat _ None] _ _ _ Hexec eq_refl).
  - assert (q = P /\ e = None) as [-> ->].
    { cbn in Hkill.
      destruct Hkill as [Hev | [Hev | [Hev | [Hev | Hev]]]]; try discriminate Hev.
      - injection Hev as -> <-. split; reflexivity.
      - apply in_app_or in Hev. destruct Hev as [Hev | Hev].
        + apply pollTrace_events in Hev.
          destruct Hev as [Hev | [Hev | [Hev _]]]; discriminate Hev.
        + cbn in Hev. destruct Hev as [Hev | [Hev | []]]; discriminate Hev. }
    repeat split; try assumption.
    + destruct (pollTrace_measures P alive seenDead) as (_ & _ & _ & Hk0 & _).
      rewrite !count_app, Hk0. reflexivity.
    + exists c, (pollTrace P alive seenDead
                 ++ [EvRemove (lockFilePath l) y; writeEv l x]).
      repeat split; try assumption.
      apply (exec_first_read o _ w _ w' [EvStat _ None] _ _ _ Hexec eq_refl).
Qed.


(** X7.  When there is no lock file, TryLockWithKill makes two calls, the
    Stat that fails with ENOENT and the write of the caller's PID; no
    process is looked at or killed, and the call returns Acquired, with the
    lock file holding the PID, unless the write fails. *)
Theorem absent_lock_is_claimed_by_one_write
        (w : World) (l : InstanceLock) (killExisting : bool) :
  files w (lockFilePath l) = None ->
  forall r w' tr,
    exec o (TryLockWithKill l killExisting) w = (r, w', tr) ->
    exists x,
      tr = [EvStat (lockFilePath l) (Some ENOENT); writeEv l x]
      /\ r = createResult x
      /\ (x = None ->
          r = Acquired /\ files w' (lockFilePath l) = Some (Itoa (pid l))).
Proof.
  intros Habsent r w' tr Hexec.
  pose proof (TryLockWithKill_run (os o) l killExisting w r w' tr Hexec) as Hrun.
  assert (Hstat : forall post,
             tr = EvStat (lockFilePath l) None :: post -> False).
  { intros post ->.
    pose proof (exec_first_stat _ w r w' _ _ _ Hexec Habsent) as H.
    discriminate H. }
  inversion Hrun as
      [e x Htr Hr | e y x Htr Hr | c y x Hp Htr Hr | c Hp Htr Hr
       | c q y x Hp Hq Htr Hr | c q Hp Hq Hk Htr Hr | c q e Hp Hq Hk Htr Hr
       | c q alive seenDead y x Hp Hq Hk Hn Htr Hr];
    try solve [exfalso; apply (Hstat _ (eq_sym Htr))].
  subst tr r.
  pose proof (exec_first_stat _ w _ w' _ _ _ Hexec Habsent) as He.
  injection He as ->.
  exists x. split; [reflexivity |]. split; [reflexivity |].
  intros ->. split; [reflexivity |].
  apply (claimed_file o _ l w _ w' [EvStat (lockFilePath l) (Some ENOENT)] Hexec).
Qed.

(** X8.  A lock file whose content is not a PID (after TrimSpace, Atoi
    fails: empty, not a number, out of the range of int) never leads to a
    liveness check, a kill request or a sleep, and never to Rejected; the
    call removes the file and writes the caller's PID, and returns Acquired
    when the write succeeds. *)
Theorem unparsable_record_is_replaced
        (w : World) (l : InstanceLock) (killExisting : bool) (content : string) :
  files w (lockFilePath l) = Some content ->
  Atoi (TrimSpace content) = None ->
  forall r w' tr,
    exec o (TryLockWithKill l killExisting) w = (r, w', tr) ->
    count isLiveness tr = 0%nat
    /\ count isKill tr = 0%nat
    /\ sleepTotal tr = 0
    /\ r <> Rejected
    /\ (exists x pre, tr = pre ++ [writeEv l x] /\ r = createResult x)
    /\ (writesSucceed tr ->
        r = Acquired /\ files w' (lockFilePath l) = Some (Itoa (pid l))).
Proof.
  intros Hfile Hparse r w' tr Hexec.
  pose proof (TryLockWithKill_run (os o) l killExisting w r w' tr Hexec) as Hrun.
  assert (Hsame : forall c post,
             tr = EvStat (lockFilePath l) None
                  :: EvReadFile (lockFilePath l) (inl c) :: post ->
             Atoi (TrimSpace c) = None).
  { intros c post ->.
    pose proof (exec_first_read o _ w r w' [EvStat _ None] _ _ _ Hexec eq_refl)
      as Hread.
    rewrite Hfile in Hread. injection Hread as <-. exact Hparse. }
  assert (Hshape : forall x pre,
             tr = pre ++ [writeEv l x] ->
             r = createResult x ->
             r <> Rejected
             /\ (exists x pre, tr = pre ++ [writeEv l x] /\ r = createResult x)
             /\ (writesSucceed tr ->
                 r = Acquired
                 /\ files w' (lockFilePath l) = Some (Itoa (pid l)))).
  { intros x pre Htr Hr. split; [subst r; destruct x; discriminate |].
    split; [exists x, pre; split; assumption |].
    intros Hwrite.
    assert (x = None) as ->.
    { apply (Hwrite (lockFilePath l) (Itoa (pid l)) 420%N x).
      rewrite Htr. apply in_or_app. right. left. reflexivity. }
    split; [exact Hr |]. subst tr.
    apply (claimed_file o _ l w _ w' pre Hexec). }
  inversion Hrun as
      [e x Htr Hr | e y x Htr Hr | c y x Hp Htr Hr | c Hp Htr Hr
       | c q y x Hp Hq Htr Hr | c q Hp Hq Hk Htr Hr | c q e Hp Hq Hk Htr Hr
       | c q alive seenDead y x Hp Hq Hk Hn Htr Hr];
    try solve [rewrite (Hsame c _ (eq_sym Htr)) in Hp; discriminate Hp].
  - subst tr r. do 3 (split; [reflexivity |]).
    apply (Hshape x [EvStat (lockFilePath l) (Some e)]); reflexivity.
  - subst tr r. do 3 (split; [reflexivity |]).
    apply (Hshape x [EvStat (lockFilePath l) None;
                     EvReadFile (lockFilePath l) (inr e);
                     EvRemove (lockFilePath l) y]); reflexivity.
  - subst tr r. do 3 (split; [reflexivity |]).
    apply (Hshape x [EvStat (lockFilePath l) None;
                     EvReadFile (lockFilePath l) (inl c);
                     EvRemove (lockFilePath l) y]); reflexivity.
Qed.

(** X9.  Unlock does not look at the record.  When it returns nil the lock
    file existed and is gone, whatever PID it held, and the other files are
    as they were; the next TryLockWithKill on that file, by any process and
    with either killExisting, finds no lock file and claims it with one
    write; and an Unlock that follows directly fails with ENOENT and changes
    nothing. *)
Theorem unlock_removes_any_record (w : World) (l : InstanceLock) :
  forall w1 tr1,
    exec o (Unlock l) w = (None, w1, tr1) ->
    files w (lockFilePath l) <> None
    /\ files w1 (lockFilePath l) = None
    /\ (forall name, name <> lockFilePath l -> files w1 name = files w name)
    /\ (forall l' killExisting r w2 tr2,
           lockFilePath l' = lockFilePath l ->
           exec o (TryLockWithKill l' killExisting) w1 = (r, w2, tr2) ->
           exists x,
             tr2 = [EvStat (lockFilePath l) (Some ENOENT); writeEv l' x]
             /\ r = createResult x)
    /\ (forall r2 w2 tr2,
           exec o (Unlock l) w1 = (r2, w2, tr2) ->
           r2 = Some ENOENT /\ files w2 = files w1).
Proof.
  intros w1 tr1. unfold exec, Unlock, call. cbn [run os].
  destruct (files w (lockFilePath l)) as [c |] eqn:Hfile; [| discriminate].
  destruct (removeFault o (ticks w)); [discriminate |].
  intros H; injection H as <- _.
  assert (Hgone : files (setFile (lockFilePath l) None w) (lockFilePath l) = None)
    by (cbn; rewrite String.eqb_refl; reflexivity).
  split; [discriminate |]. split; [exact Hgone |]. split.
  { intros name Hname. cbn.
    destruct (String.eqb_spec name (lockFilePath l)); [contradiction | reflexivity]. }
  split.
  - intros l' killExisting r w2 tr2 Hpath Hexec.
    assert (Hgone' : files (setFile (lockFilePath l) None w) (lockFilePath l')
                     = None) by (rewrite Hpath; exact Hgone).
    unfold TryLockWithKill in Hexec. rewrite run_call_bind in Hexec.
    cbn [os] in Hexec. rewrite Hgone' in Hexec.
    destruct (createLock_run (os o) l' (tick (setFile (lockFilePath l) None w)))
      as (x & s' & Hcreate).
    rewrite Hcreate in Hexec. injection Hexec as <- _ <-.
    exists x. rewrite Hpath. split; reflexivity.
  - intros r2 w2 tr2. rewrite Hgone.
    intros H; injection H as <- <- _. split; reflexivity.
Qed.

End LockOnTheModel.

(** * cmd main *)

Import cmdmain.

Section MainInAnyEnvironment.

Variable Join : string -> string -> string.
Context {S : Type}.
Variable handle : forall X : Type, mainE X -> S -> X * S.

(** The calls of the lock inside main are the calls of the lock. *)
Lemma run_liftL {A : Type} (p : prog osE A) :
  forall s,
    run handle mainLog (liftL p) s =
    let '(a, s1, tr) := run (osPart handle) osLog p s in
    (a, s1, map MOs tr).
Proof.
  induction p as [a | X e k IH]; intros s; cbn [liftL run].
  - reflexivity.
  - unfold osPart at 1. destruct (handle X (inlE e) s) as [x s1].
    rewrite IH. destruct (run (osPart handle) osLog (k x) s1) as [[a s2] tr].
    reflexivity.
Qed.

(** Every run of main: the lock for the temp directory and the PID the
    environment reports is acquired with TryLockWithKill(true), and what
    follows is one of four endings. *)
Lemma main_run (s : S) :
  forall r s' tr,
    run handle mainLog (main Join) s = (r, s', tr) ->
    exists dir p s0 rl s1 trL post,
      run (osPart handle) osLog
          (TryLockWithKill {| lockFilePath := Join dir lockFileName; pid := p |}
                           true) s0
      = (rl, s1, trL)
      /\ tr = [MTempDir dir; MGetpid p] ++ map MOs trL ++ post
      /\ ((exists e,
              rl = (false, Some e)
              /\ post = [MSlogError "Failed to acquire instance lock." e]
              /\ r = Exited 1)
          \/ (rl = Acquired
              /\ exists e,
                  post = [MInitializeModeSelector (Some e);
                          MSlogError
                            "Failed to initialize MATLAB MCP Core Server." e]
                  /\ r = Exited 1)
          \/ (rl = Acquired
              /\ exists e,
                  post = [MInitializeModeSelector None;
                          MStartAndWaitForCompletion (Some e)]
                  /\ r = Exited 1)
          \/ (rl = Acquired
              /\ post = [MInitializeModeSelector None;
                         MStartAndWaitForCompletion None]
              /\ r = Exited 0)).
Proof.
  intros r s' tr. unfold main, New.
  rewrite run_bind, run_call_bind.
  destruct (handle _ (inrE TempDir) s) as [dir s1].
  rewrite run_call_bind.
  destruct (handle _ (inrE Getpid) s1) as [p s2].
  cbn [run]. rewrite run_bind, run_liftL.
  destruct (run (osPart handle) osLog
                (TryLockWithKill
                   {| lockFilePath := Join dir lockFileName; pid := p |} true) s2)
    as [[rl s3] trL] eqn:Hlock.
  pose proof (killing_call_result (osPart handle) _ s2 rl s3 trL Hlock) as Hres.
  intros Hrun.
  exists dir, p, s2, rl, s3, trL.
  destruct Hres as [-> | [e ->]].
  - (* acquired: the deferred release and the mode selector *)
    unfold Acquired in Hrun. cbn [negb] in Hrun. unfold deferring in Hrun.
    rewrite run_bind, run_call_bind in Hrun.
    destruct (handle _ (inrE InitializeModeSelector) s3) as [[e |] s4].
    + rewrite run_call_bind in Hrun.
      destruct (handle _ (inrE (SlogError _ e)) s4) as [[] s5].
      cbn [run osExit] in Hrun. injection Hrun as <- _ <-.
      eexists. split; [exact Hlock |]. split; [reflexivity |].
      right; left. split; [reflexivity |]. exists e. split; reflexivity.
    + rewrite run_call_bind in Hrun.
      destruct (handle _ (inrE StartAndWaitForCompletion) s4) as [[e |] s5];
        cbn [run osExit] in Hrun; injection Hrun as <- _ <-;
        eexists; (split; [exact Hlock |]); (split; [reflexivity |]).
      * right; right; left. split; [reflexivity |]. exists e. split; reflexivity.
      * right; right; right. repeat split.
  - cbn [negb] in Hrun. rewrite run_call_bind in Hrun.
    destruct (handle _ (inrE (SlogError _ e)) s3) as [[] s4].
    cbn [run osExit] in Hrun. injection Hrun as <- _ <-.
    eexists. split; [exact Hlock |]. split; [reflexivity |].
    left. exists e. repeat split.
Qed.

(** X10.  main always leaves through os.Exit, with status 0 exactly when
    the mode selector was started and completed without error, and with
    status 1 otherwise; it never prints the message that another instance is
    running, because TryLockWithKill(true) does not return false without an
    error. *)
Theorem main_exit_status (s : S) :
  let '(r, _, tr) := run handle mainLog (main Join) s in
  (r = Exited 0 \/ r = Exited 1)
  /\ (r = Exited 0 <-> In (MStartAndWaitForCompletion None) tr)
  /\ (forall text, ~ In (MStderr text) tr).
Proof.
  destruct (run handle mainLog (main Join) s) as [[r s'] tr] eqn:Hrun.
  destruct (main_run s r s' tr Hrun)
    as (dir & p & s0 & rl & s1 & trL & post & _ & -> & Hend).
  assert (Hos : forall ev, In ev (map MOs trL) -> isOs ev = true).
  { intros ev Hin. apply in_map_iff in Hin. destruct Hin as (x & <- & _).
    reflexivity. }
  assert (Hin : forall ev,
             isOs ev = false ->
             In ev ([MTempDir dir; MGetpid p] ++ map MOs trL ++ post) ->
             ev = MTempDir dir \/ ev = MGetpid p \/ In ev post).
  { intros ev Hev H. cbn [app] in H.
    destruct H as [<- | [<- | H]]; auto.
    apply in_app_or in H. destruct H as [H | H]; auto.
    apply Hos in H. rewrite H in Hev. discriminate Hev. }
  assert (Hpost : forall ev,
             In ev post ->
             In ev ([MTempDir dir; MGetpid p] ++ map MOs trL ++ post)).
  { intros ev H. cbn [app]. right; right. apply in_or_app. right. exact H. }
  destruct Hend as [(e & _ & -> & ->) | [(_ & e & -> & ->)
                    | [(_ & e & -> & ->) | (_ & -> & ->)]]].
  - split; [right; reflexivity |]. split.
    + split; [discriminate |]. intros H. apply Hin in H; [| reflexivity].
      cbn in H. intuition discriminate.
    + intros text H. apply Hin in H; [| reflexivity].
      cbn in H. intuition discriminate.
  - split; [right; reflexivity |]. split.
    + split; [discriminate |]. intros H. apply Hin in H; [| reflexivity].
      cbn in H. intuition discriminate.
    + intros text H. apply Hin in H; [| reflexivity].
      cbn in H. intuition discriminate.
  - split; [right; reflexivity |]. split.
    + split; [discriminate |]. intros H. apply Hin in H; [| reflexivity].
      cbn in H. intuition discriminate.
    + intros text H. apply Hin in H; [| reflexivity].
      cbn in H. intuition discriminate.
  - split; [left; reflexivity |]. split.
    + split; [| reflexivity]. intros _. apply Hpost. cbn. auto.
    + intros text H. apply Hin in H; [| reflexivity].
      cbn in H. intuition discriminate.
Qed.

(** X11.  The function that main defers to release the lock never runs:
    every path of main ends in os.Exit, which skips deferred functions.  In
    every run the calls on the operating system are those of the one call of
    TryLockWithKill(true), on the lock file in the temp directory and with
    the PID of the process; after it main only talks to the mode selector
    and the logger, so Unlock is not called and no warning about a failed
    release is logged. *)
Theorem main_never_releases_the_lock (s : S) :
  forall r s' tr,
    run handle mainLog (main Join) s = (r, s', tr) ->
    exists dir p rl trL post,
      lockRun {| lockFilePath := Join dir lockFileName; pid := p |} true trL rl
      /\ tr = [MTempDir dir; MGetpid p] ++ map MOs trL ++ post
      /\ forallb (fun ev => negb (isOs ev)) post = true
      /\ (forall msg e, ~ In (MSlogWarn msg e) tr).
Proof.
  intros r s' tr Hrun.
  destruct (main_run s r s' tr Hrun)
    as (dir & p & s0 & rl & s1 & trL & post & Hlock & -> & Hend).
  exists dir, p, rl, trL, post.
  split; [apply (TryLockWithKill_run (osPart handle) _ true s0 rl s1 trL Hlock) |].
  split; [reflexivity |].
  assert (Hpost : forallb (fun ev => negb (isOs ev)) post = true
                  /\ forall msg e, ~ In (MSlogWarn msg e) post).
  { destruct Hend as [(e & _ & -> & _) | [(_ & e & -> & _)
                      | [(_ & e & -> & _) | (_ & -> & _)]]];
      (split; [reflexivity |]); intros msg e0 H; cbn in H; intuition discriminate. }
  destruct Hpost as [Hquiet Hwarn]. split; [exact Hquiet |].
  intros msg e H. cbn [app] in H.
  destruct H as [H | [H | H]]; try discriminate H.
  apply in_app_or in H. destruct H as [H | H]; [| apply (Hwarn msg e H)].
  apply in_map_iff in H. destruct H as (x & Hx & _). discriminate Hx.
Qed.

End MainInAnyEnvironment.

Section MainOnTheModel.

Variable Join : string -> string -> string.
Variable o : Oracle.
Variable hst : Host.

(** X12.  The lock file outlives the process.  On a host whose file system
    follows the model, whenever main has got past the lock (it has called
    InitializeModeSelector), the lock file still records the PID of the
    process when main leaves through os.Exit, whatever the exit status. *)
Theorem lock_file_outlives_main (w : World) :
  isInt (hostPid hst) ->
  forall r w' tr initErr,
    run (host o hst) mainLog (main Join) w = (r, w', tr) ->
    In (MInitializeModeSelector initErr) tr ->
    exists content,
      files w' (Join (hostTempDir hst) lockFileName) = Some content
      /\ Atoi (TrimSpace content) = Some (hostPid hst).
Proof.
  intros Hint r w' tr initErr. unfold main, New.
  rewrite run_bind, run_call_bind. cbn [host].
  rewrite run_call_bind. cbn [host run].
  rewrite run_bind, run_liftL.
  change (osPart (host o hst)) with (os o).
  destruct (run (os o) osLog
                (TryLockWithKill
                   {| lockFilePath := Join (hostTempDir hst) lockFileName;
                      pid := hostPid hst |} true) w)
    as [[rl w1] trL] eqn:Hlock.
  pose proof (killing_call_result (os o) _ w rl w1 trL Hlock) as Hres.
  destruct Hres as [-> | [e ->]].
  - pose proof (acquired_record
                  o w {| lockFilePath := Join (hostTempDir hst) lockFileName;
                         pid := hostPid hst |} true Hint w1 trL Hlock)
      as Hrecord.
    cbn [lockFilePath pid] in Hrecord.
    unfold Acquired. cbn [negb]. unfold deferring.
    rewrite run_bind, run_call_bind. cbn [host].
    destruct (initResult hst) as [e |].
    + rewrite run_call_bind. cbn [host run osExit].
      intros H _; injection H as _ <- _. exact Hrecord.
    + rewrite run_call_bind. cbn [host].
      destruct (startResult hst) as [e |]; cbn [run osExit];
        intros H _; injection H as _ <- _; exact Hrecord.
  - cbn [negb]. rewrite run_call_bind. cbn [host run osExit].
    intros H Hin; injection H as _ _ <-. exfalso.
    cbn [app] in Hin. destruct Hin as [Hin | [Hin | Hin]]; try discriminate Hin.
    apply in_app_or in Hin. destruct Hin as [Hin | Hin].
    + apply in_map_iff in Hin. destruct Hin as (x & Hx & _). discriminate Hx.
    + cbn in Hin. destruct Hin as [Hin | []]. discriminate Hin.
Qed.

End MainOnTheModel.

(** * Further properties of the client factory *)

Import callbackshape.

Section CallbackInAnyEnvironment.

Variable ParseCertificate : list byte -> Certificate + error.
Variable pemCertificates : list byte -> list Certificate.
Context {S : Type}.
Variable handle : forall X : Type, tlsE X -> S -> X * S.

(** The chain parses when every certificate parses, in the order given. *)
Lemma parseChain_parsed (rawCerts : list (list byte)) :
  forall acc certs,
    parseChain ParseCertificate rawCerts acc = inl certs ->
    exists cs,
      certs = acc ++ cs
      /\ map ParseCertificate rawCerts = map inl cs.
Proof.
  induction rawCerts as [| raw rest IH]; intros acc certs; cbn [parseChain].
  - intros H; injection H as <-. exists []. rewrite app_nil_r. split; reflexivity.
  - destruct (ParseCertificate raw) as [cert | e] eqn:Hraw; [| discriminate].
    intros H. destruct (IH _ _ H) as (cs & -> & Hmap).
    exists (cert :: cs). rewrite <- app_assoc. split; [reflexivity |].
    cbn [map]. rewrite Hraw, Hmap. reflexivity.
Qed.

(** The first certificate that does not parse ends the parsing with its
    error. *)
Lemma parseChain_first_failure (pre : list (list byte)) :
  forall raw post e acc,
    (forall x, In x pre -> exists cert, ParseCertificate x = inl cert) ->
    ParseCertificate raw = inr e ->
    parseChain ParseCertificate (pre ++ raw :: post) acc
    = inr (Wrapf "failed to parse certificate: %w" [] e).
Proof.
  induction pre as [| x pre IH]; intros raw post e acc Hpre Hraw;
    cbn [app parseChain].
  - rewrite Hraw. reflexivity.
  - destruct (Hpre x (or_introl eq_refl)) as (cert & ->).
    apply IH; [| exact Hraw]. intros y Hy. apply Hpre. right. exact Hy.
Qed.

(** Every run of the callback. *)
Lemma callback_run (caCertPool : CertPool) (rawCerts : list (list byte))
      (verifiedChains : list (list Certificate)) (s : S) :
  forall r s' tr,
    run handle tlsLog
        (verifyPeerCertificate ParseCertificate caCertPool rawCerts verifiedChains) s
    = (r, s', tr) ->
    (exists e,
        parseChain ParseCertificate rawCerts [] = inr e
        /\ r = Some e /\ tr = [] /\ s' = s)
    \/ (parseChain ParseCertificate rawCerts [] = inl []
        /\ r = Some (Errorf "no certificates provided" [])
        /\ tr = [] /\ s' = s)
    \/ (exists leaf rest now,
           parseChain ParseCertificate rawCerts [] = inl (leaf :: rest)
           /\ ((exists e,
                   checkSkew (leaf :: rest) (now - 24 * Hour) (now + 24 * Hour)
                   = Some e
                   /\ r = Some e /\ tr = [EvNow now])
               \/ (checkSkew (leaf :: rest) (now - 24 * Hour) (now + 24 * Hour)
                   = None
                   /\ verifyRun caCertPool leaf now tr r))).
Proof.
  intros r s' tr. unfold verifyPeerCertificate.
  destruct (parseChain ParseCertificate rawCerts []) as [[| leaf rest] | e].
  - cbn [run]. intros H; injection H as <- <- <-.
    right; left. repeat split.
  - rewrite run_call_bind.
    destruct (handle _ Now s) as [now s1].
    change (Add now (- clockSkewTolerance)) with (now - 24 * Hour).
    change (Add now clockSkewTolerance) with (now + 24 * Hour).
    intros Hrun. right; right. exists leaf, rest, now. split; [reflexivity |].
    destruct (checkSkew (leaf :: rest) (now - 24 * Hour) (now + 24 * Hour))
      as [e |].
    { cbn [run] in Hrun. injection Hrun as <- _ <-.
      left. exists e. repeat split. }
    right. split; [reflexivity |].
    rewrite run_call_bind in Hrun.
    destruct (handle _ (Verify _ _) s1) as [[e1 |] s2].
    2: { cbn [run] in Hrun. injection Hrun as <- _ <-. constructor. }
    cbn [verifyAt] in Hrun. rewrite run_call_bind in Hrun.
    destruct (handle _ (Verify _ _) s2) as [[e2 |] s3].
    2: { cbn [run] in Hrun. injection Hrun as <- _ <-.
         apply (VerifiedLater caCertPool leaf now e1). }
    rewrite run_call_bind in Hrun.
    destruct (handle _ (Verify _ _) s3) as [[e3 |] s4];
      cbn [run] in Hrun; injection Hrun as <- _ <-.
    + apply (Unverified caCertPool leaf now e1 e2 e3).
    + apply (VerifiedEarlier caCertPool leaf now e1 e2).
  - cbn [run]. intros H; injection H as <- <- <-.
    left. exists e. repeat split.
Qed.

Lemma verifyRun_events (pool : CertPool) (leaf : Certificate) (now : Time) :
  forall tr r,
    verifyRun pool leaf now tr r ->
    (List.length (filter isVerify tr) <= 3)%nat
    /\ List.length (filter isNow tr) = 1%nat
    /\ (forall cert opts e,
           In (EvVerify cert opts e) tr ->
           cert = leaf
           /\ Roots opts = pool
           /\ (referenceTime now opts = now
               \/ referenceTime now opts = now + 24 * Hour
               \/ referenceTime now opts = now - 24 * Hour))
    /\ (r = None <->
        exists pre opts, tr = pre ++ [EvVerify leaf opts None]).
Proof.
  intros tr r Hrun.
  inversion Hrun; subst; cbn [filter isVerify isNow List.length];
    (split; [lia |]); (split; [reflexivity |]); split.
  all: try (intros cert opts e Hin; cbn in Hin;
            repeat (destruct Hin as [Hin | Hin];
                    [try discriminate Hin;
                     injection Hin as <- <- _; cbn; auto |]);
            destruct Hin).
  - split; [intros _ | reflexivity]. exists [EvNow now], (atNow pool). reflexivity.
  - split; [intros _ | reflexivity].
    exists [EvNow now; EvVerify leaf (atNow pool) (Some e1)], (later pool now).
    reflexivity.
  - split; [intros _ | reflexivity].
    exists [EvNow now; EvVerify leaf (atNow pool) (Some e1);
            EvVerify leaf (later pool now) (Some e2)], (earlier pool now).
    reflexivity.
  - split; [discriminate |]. intros (pre & opts & Htr). exfalso.
    apply (f_equal (@rev tlsEvent)) in Htr.
    rewrite rev_app_distr in Htr. cbn in Htr. discriminate Htr.
Qed.

End CallbackInAnyEnvironment.

Section CallbackProperties.

Variable ParseCertificate : list byte -> Certificate + error.
Variable pemCertificates : list byte -> list Certificate.
Context {S : Type}.
Variable handle : forall X : Type, tlsE X -> S -> X * S.

(** X13.  The callback never accepts a handshake without a successful chain
    verification: when it returns nil, every certificate of the chain has
    parsed, the chain is not empty and lies within the skew tolerance of the
    time read, and the last call was a Verify of the first certificate
    against the pinned pool that succeeded, at reference time now, now + 24h
    or now - 24h. *)
Theorem accepted_handshake_was_verified
        (caCertPool : CertPool) (rawCerts : list (list byte))
        (verifiedChains : list (list Certificate)) (s : S) :
  forall s' tr,
    run handle tlsLog
        (verifyPeerCertificate ParseCertificate caCertPool rawCerts verifiedChains) s
    = (None, s', tr) ->
    exists leaf rest now pre opts,
      map ParseCertificate rawCerts = map inl (leaf :: rest)
      /\ (forall cert,
             In cert (leaf :: rest) ->
             NotBefore cert <= now + 24 * Hour
             /\ now - 24 * Hour <= NotAfter cert)
      /\ tr = EvNow now :: pre ++ [EvVerify leaf opts None]
      /\ Roots opts = caCertPool
      /\ (referenceTime now opts = now
          \/ referenceTime now opts = now + 24 * Hour
          \/ referenceTime now opts = now - 24 * Hour).
Proof.
  intros s' tr Hrun.
  destruct (callback_run ParseCertificate handle _ _ _ s _ s' tr Hrun)
    as [(e & _ & Hr & _) | [(_ & Hr & _)
        | (leaf & rest & now & Hparse & [(e & _ & Hr & _) | (Hskew & Hv)])]];
    try discriminate Hr.
  destruct (parseChain_parsed ParseCertificate _ _ _ Hparse) as (cs & Hcs & Hmap).
  cbn [app] in Hcs. subst cs.
  exists leaf, rest, now.
  assert (Hwin : forall cert,
             In cert (leaf :: rest) ->
             NotBefore cert <= now + 24 * Hour
             /\ now - 24 * Hour <= NotAfter cert)
    by (apply (checkSkew_passes _ _ _ Hskew)).
  inversion Hv; subst.
  - exists [], (atNow caCertPool). repeat split; auto; apply Hwin; assumption.
  - exists [EvVerify leaf (atNow caCertPool) (Some e1)], (later caCertPool now).
    repeat split; auto; apply Hwin; assumption.
  - exists [EvVerify leaf (atNow caCertPool) (Some e1);
            EvVerify leaf (later caCertPool now) (Some e2)],
           (earlier caCertPool now).
    repeat split; auto; apply Hwin; assumption.
Qed.

(** X14.  In every run of the callback the clock is read at most once and
    Verify is called at most three times, always on the first certificate
    of the chain and always against the pinned pool: no other certificate of
    the chain is verified and no other roots are used. *)
Theorem verification_is_pinned_and_bounded
        (caCertPool : CertPool) (rawCerts : list (list byte))
        (verifiedChains : list (list Certificate)) (s : S) :
  let tr := snd (run handle tlsLog
                     (verifyPeerCertificate
                        ParseCertificate caCertPool rawCerts verifiedChains) s) in
  (List.length (filter isVerify tr) <= 3)%nat
  /\ (List.length (filter isNow tr) <= 1)%nat
  /\ (forall cert opts e,
         In (EvVerify cert opts e) tr ->
         Roots opts = caCertPool
         /\ exists rest,
             parseChain ParseCertificate rawCerts [] = inl (cert :: rest)).
Proof.
  destruct (run handle tlsLog
                (verifyPeerCertificate
                   ParseCertificate caCertPool rawCerts verifiedChains) s)
    as [[r s'] tr] eqn:Hrun.
  cbn [snd].
  destruct (callback_run ParseCertificate handle _ _ _ s r s' tr Hrun)
    as [(e & _ & _ & -> & _) | [(_ & _ & -> & _)
        | (leaf & rest & now & Hparse & [(e & _ & _ & ->) | (_ & Hv)])]];
    try solve [split; [cbn; lia |]; split; [cbn; lia |];
               intros cert opts e0 H; cbn in H; intuition discriminate].
  destruct (verifyRun_events _ _ _ _ _ Hv) as (Hlen & Hnow & Hev & _).
  split; [exact Hlen |]. split; [rewrite Hnow; lia |].
  intros cert opts e Hin. destruct (Hev cert opts e Hin) as (-> & Hroots & _).
  split; [exact Hroots | exists rest; exact Hparse].
Qed.

(** X15.  A certificate of the chain that does not parse fails the
    handshake, wherever it stands in the chain: the callback returns the
    parse error of the first such certificate, wrapped, without reading the
    clock and without calling Verify, also when the first certificate of the
    chain is a good one. *)
Theorem unparsable_certificate_fails_the_handshake
        (caCertPool : CertPool) (pre post : list (list byte)) (raw : list byte)
        (verifiedChains : list (list Certificate)) (e : error) (s : S) :
  (forall x, In x pre -> exists cert, ParseCertificate x = inl cert) ->
  ParseCertificate raw = inr e ->
  run handle tlsLog
      (verifyPeerCertificate
         ParseCertificate caCertPool (pre ++ raw :: post) verifiedChains) s
  = (Some (Wrapf "failed to parse certificate: %w" [] e), s, []).
Proof.
  intros Hpre Hraw. unfold verifyPeerCertificate.
  rewrite (parseChain_first_failure ParseCertificate pre raw post e [] Hpre Hraw).
  reflexivity.
Qed.

(** X16.  The coarse check passes exactly when every certificate of the
    chain, not the first only, has NotBefore at or before now + 24h and
    NotAfter at or after now - 24h: the two bounds are inclusive. *)
Theorem skew_check_window (certs : list Certificate) (now : Time) :
  checkSkew certs (Add now (- clockSkewTolerance)) (Add now clockSkewTolerance)
  = None
  <-> (forall cert,
          In cert certs ->
          NotBefore cert <= now + 24 * Hour
          /\ now - 24 * Hour <= NotAfter cert).
Proof.
  change (Add now (- clockSkewTolerance)) with (now - 24 * Hour).
  change (Add now clockSkewTolerance) with (now + 24 * Hour).
  split.
  - apply checkSkew_passes.
  - intros Hall.
    induction certs as [| c rest IH]; [reflexivity |].
    cbn [checkSkew]. unfold After, Before.
    destruct (Hall c (or_introl eq_refl)) as [Hnb Hna].
    destruct (now + 24 * Hour <? NotBefore c) eqn:H1;
      [apply Z.ltb_lt in H1; lia |].
    destruct (NotAfter c <? now - 24 * Hour) eqn:H2;
      [apply Z.ltb_lt in H2; lia |].
    apply IH. intros cert Hin. apply Hall. right. exact Hin.
Qed.

End CallbackProperties.

Section FactoryProperties.

Variable ParseCertificate : list byte -> Certificate + error.
Variable pemCertificates : list byte -> list Certificate.
Context {S : Type}.
Variable handle : forall X : Type, tlsE X -> S -> X * S.

(** X17.  NewClientForSelfSignedTLSServer ends in one of three ways.  With
    no certificate in the PEM text it fails before anything is created; when
    cookiejar.New fails it returns that error, wrapped, and a nil client;
    otherwise it returns a client with the jar just created and a nil error.
    A nil client always comes with an error and a client never does. *)
Theorem factory_results (certificatePEM : list byte) (s : S) :
  let '(r, _, tr) :=
    run handle tlsLog
        (NewClientForSelfSignedTLSServer
           ParseCertificate pemCertificates certificatePEM) s in
  (pemCertificates certificatePEM = []
   /\ tr = []
   /\ r = (None, Some (Errorf "failed to append certificate to pool" [])))
  \/ (pemCertificates certificatePEM <> []
      /\ exists e,
          tr = [EvCookiejarNew (inr e)]
          /\ r = (None, Some (Wrapf "failed to create cookie jar: %w" [] e)))
  \/ (pemCertificates certificatePEM <> []
      /\ exists jar client,
          tr = [EvCookiejarNew (inl jar)]
          /\ r = (Some client, None)
          /\ ClientJar client = jar).
Proof.
  unfold NewClientForSelfSignedTLSServer, AppendCertsFromPEM.
  destruct (pemCertificates certificatePEM) as [| c cs]; cbn [negb].
  - cbn [run]. left. repeat split.
  - rewrite run_call_bind.
    destruct (handle _ CookiejarNew s) as [[jar | e] s1]; cbn [run].
    + right; right. split; [discriminate |].
      eexists jar, _. repeat split.
    + right; left. split; [discriminate |]. exists e. split; reflexivity.
Qed.

(** X18.  A client that the factory returns is pinned to the PEM text it was
    built from: automatic verification is off, the minimum version is TLS
    1.2, the root pool holds the certificates of the PEM text and nothing
    else, and in every handshake, whatever chain the peer presents, every
    Verify call of the client's callback uses exactly these roots. *)
Theorem built_client_is_pinned (certificatePEM : list byte) (s : S) :
  forall client s' tr,
    run handle tlsLog
        (NewClientForSelfSignedTLSServer
           ParseCertificate pemCertificates certificatePEM) s
    = ((Some client, None), s', tr) ->
    let config := TLSClientConfig (ClientTransport client) in
    pemCertificates certificatePEM <> []
    /\ RootCAs config = pemCertificates certificatePEM
    /\ InsecureSkipVerify config = true
    /\ MinVersion config = VersionTLS12
    /\ forall (S2 : Type) (handle2 : forall X : Type, tlsE X -> S2 -> X * S2)
              (s2 : S2) (rawCerts : list (list byte))
              (verifiedChains : list (list Certificate)) cert opts e,
        In (EvVerify cert opts e)
           (snd (run handle2 tlsLog
                     (VerifyPeerCertificate config rawCerts verifiedChains) s2)) ->
        Roots opts = pemCertificates certificatePEM.
Proof.
  intros client s' tr.
  unfold NewClientForSelfSignedTLSServer, AppendCertsFromPEM.
  destruct (pemCertificates certificatePEM) as [| c cs] eqn:Hpem; cbn [negb].
  { cbn [run]. discriminate. }
  rewrite run_call_bind.
  destruct (handle _ CookiejarNew s) as [[jar | e] s1]; cbn [run];
    [| discriminate].
  intros H; injection H as <- _ _. cbn.
  split; [discriminate |]. do 3 (split; [reflexivity |]).
  intros S2 handle2 s2 rawCerts verifiedChains cert opts e Hin.
  destruct (run handle2 tlsLog
                (verifyPeerCertificate ParseCertificate (c :: cs)
                                       rawCerts verifiedChains) s2)
    as [[r2 s2'] tr2] eqn:Hrun.
  cbn [snd] in Hin.
  destruct (callback_run ParseCertificate handle2 _ _ _ s2 r2 s2' tr2 Hrun)
    as [(e0 & _ & _ & -> & _) | [(_ & _ & -> & _)
        | (leaf & rest & now & _ & [(e0 & _ & _ & ->) | (_ & Hv)])]];
    try solve [cbn in Hin; intuition discriminate].
  destruct (verifyRun_events _ _ _ _ _ Hv) as (_ & _ & Hev & _).
  apply (Hev cert opts e Hin).
Qed.

End FactoryProperties.

(** * The further properties at concrete inputs *)

Lemma acquired_lock_records_caller_witness :
  let res := exec calm (TryLockWithKill instanceA false) emptyWorld in
  fst (fst res) = Acquired
  /\ exists content,
      files (snd (fst res)) tmpLock = Some content
      /\ Atoi (TrimSpace content) = Some 101.
Proof.
  intros res. split; [reflexivity |].
  apply (acquired_lock_records_caller
           calm emptyWorld instanceA false
           ltac:(vm_compute; split; discriminate)
           (snd (fst res)) (snd res)).
  reflexivity.
Defined.

Lemma rejected_means_running_owner_witness :
  let res := exec calm (TryLockWithKill instanceB false) (holding tmpLock "101") in
  fst (fst res) = Rejected
  /\ files (snd (fst res)) = files (holding tmpLock "101").
Proof.
  intros res. split; [reflexivity |].
  destruct (rejected_means_running_owner
              calm (holding tmpLock "101") instanceB false
              (snd (fst res)) (snd res) eq_refl)
    as (_ & _ & Hfiles).
  exact Hfiles.
Defined.

Lemma kill_request_is_for_recorded_running_owner_witness :
  let res := exec killDenied (TryLockWithKill instanceB true)
                  (holding tmpLock "101") in
  102 <> 101 /\ count isKill (snd res) = 1%nat.
Proof.
  intros res.
  destruct (kill_request_is_for_recorded_running_owner
              killDenied (holding tmpLock "101") instanceB true
              101 (Some (External 1))
              (fst (fst res)) (snd (fst res)) (snd res) eq_refl)
    as (_ & _ & Hcount & _).
  - vm_compute. auto 10.
  - split; [discriminate | exact Hcount].
Defined.


Lemma absent_lock_is_claimed_by_one_write_witness :
  let res := exec calm (TryLockWithKill instanceA true) emptyWorld in
  exists x,
    snd res = [EvStat tmpLock (Some ENOENT); writeEv instanceA x]
    /\ fst (fst res) = createResult x
    /\ (x = None ->
        fst (fst res) = Acquired
        /\ files (snd (fst res)) tmpLock = Some (Itoa 101)).
Proof.
  intros res.
  apply (absent_lock_is_claimed_by_one_write
           calm emptyWorld instanceA true eq_refl
           (fst (fst res)) (snd (fst res)) (snd res)).
  reflexivity.
Defined.

Lemma unparsable_record_is_replaced_witness :
  let res := exec calm (TryLockWithKill instanceA false)
                  (holding tmpLock "not a pid") in
  count isLiveness (snd res) = 0%nat /\ fst (fst res) <> Rejected.
Proof.
  intros res.
  destruct (unparsable_record_is_replaced
              calm (holding tmpLock "not a pid") instanceA false "not a pid"
              eq_refl eq_refl
              (fst (fst res)) (snd (fst res)) (snd res) eq_refl)
    as (Hlive & _ & _ & Hrej & _).
  split; assumption.
Defined.

(** Process 102 removes the record of the running process 101. *)
Lemma unlock_removes_any_record_witness :
  let res := exec calm (Unlock instanceB) (holding tmpLock "101") in
  fst (fst res) = None /\ files (snd (fst res)) tmpLock = None.
Proof.
  intros res. split; [reflexivity |].
  destruct (unlock_removes_any_record
              calm (holding tmpLock "101") instanceB
              (snd (fst res)) (snd res) eq_refl)
    as (_ & Hgone & _).
  exact Hgone.
Defined.

Lemma main_never_releases_the_lock_witness :
  let res := run (host calm quietHost) mainLog (main joinUnix) emptyWorld in
  fst (fst res) = Exited 0
  /\ forall msg e, ~ In (MSlogWarn msg e) (snd res).
Proof.
  intros res. split; [reflexivity |].
  destruct (main_never_releases_the_lock
              joinUnix (host calm quietHost) emptyWorld
              (fst (fst res)) (snd (fst res)) (snd res) eq_refl)
    as (dir & p & rl & trL & post & _ & _ & _ & Hwarn).
  exact Hwarn.
Defined.

Lemma lock_file_outlives_main_witness :
  let res := run (host calm quietHost) mainLog (main joinUnix) emptyWorld in
  fst (fst res) = Exited 0
  /\ exists content,
      files (snd (fst res)) tmpLock = Some content
      /\ Atoi (TrimSpace content) = Some 4242.
Proof.
  intros res. split; [reflexivity |].
  apply (lock_file_outlives_main
           joinUnix calm quietHost emptyWorld
           ltac:(vm_compute; split; discriminate)
           (fst (fst res)) (snd (fst res)) (snd res) None eq_refl).
  vm_compute. auto 10.
Defined.

(** The local clock is a day behind: verification fails at now and succeeds
    at now + 24h. *)
Lemma accepted_handshake_was_verified_witness :
  let res := run (fixedEnv (- Day) strictVerifier) tlsLog
                 (verifyPeerCertificate sampleParse [sampleCert] sampleChain []) tt in
  fst (fst res) = None
  /\ List.length (filter isVerify (snd res)) = 2%nat.
Proof.
  intros res. split; [reflexivity |].
  destruct (accepted_handshake_was_verified
              sampleParse (fixedEnv (- Day) strictVerifier)
              [sampleCert] sampleChain [] tt
              (snd (fst res)) (snd res) eq_refl)
    as (leaf & rest & now & pre & opts & _).
  reflexivity.
Defined.

Lemma unparsable_certificate_fails_the_handshake_witness :
  run (fixedEnv 0 strictVerifier) tlsLog
      (verifyPeerCertificate sampleParse [sampleCert]
                             ([[x30; x82]] ++ [] :: [[x30]]) []) tt
  = (Some (Wrapf "failed to parse certificate: %w" [] (External 1)), tt, []).
Proof.
  apply (unparsable_certificate_fails_the_handshake
           sampleParse (fixedEnv 0 strictVerifier)
           [sampleCert] [[x30; x82]] [[x30]] [] [] (External 1) tt).
  - intros x [<- | []]. eexists. reflexivity.
  - reflexivity.
Defined.

Lemma built_client_is_pinned_witness :
  pemOfSample [x2d] <> []
  /\ RootCAs (TLSClientConfig (ClientTransport sampleClient)) = pemOfSample [x2d].
Proof.
  destruct (built_client_is_pinned
              sampleParse pemOfSample (fixedEnv 0 unrelated) [x2d] tt
              sampleClient tt [EvCookiejarNew (inl {| entries := [] |})] eq_refl)
    as (Hne & Hroots & _).
  split; assumption.
Defined.
